(** * Lap-time aggregation of the testing analysis: a shallow embedding

    The three analysis modules ([distributions], [long_runs], [reliability])
    are pandas pipelines over one lap table.  A table is the list of its rows
    in index order; a column is a record field.  [LapTimeSeconds] is a
    [float64] column, so its values are binary64 floats and a null is NaN.
    The grouping columns (Team, Driver, Day, Stint) are typed without nulls,
    as the data model has them; Compound may be null.

    The pandas operations the modules call ([groupby], the reductions,
    [sort_values], [pivot], [unique]) are modelled after their documented
    behaviour: groups come in ascending key order with their rows in table
    order, reductions skip nulls, sorting puts NaN last.  How pandas orders
    rows with equal sort keys, and the order in which it adds up a column,
    are not fixed by that; the model sorts stably and adds from the left.

    The functions that only add, subtract, divide and compare lap times are
    written over an interface [Arith] of the column's arithmetic; its instance
    is the binary64 arithmetic that pandas computes with.  What is proved
    for any instance does not depend on how that arithmetic rounds.

    The collaborators of [plotting] and [config] (colour tables,
    [LONG_RUN_MIN_LAPS]) are parameters.  A renderer returns the figure it
    drew as data, [None], or raises. *)

From Stdlib Require Import ZArith List Bool Lia Arith.
From Stdlib Require Import String Ascii DecimalString.
From Stdlib Require Import Permutation Sorted.
From Stdlib Require Import Floats Uint63.
From Stdlib Require Import QArith Qpower.
Import ListNotations.

#[local] Set Warnings "-inexact-float".
#[local] Open Scope Z_scope.
#[local] Open Scope list_scope.

(** ** Arithmetic of a numeric column *)

Class Arith (T : Type) := {
  t_zero : T;
  t_add : T -> T -> T;
  t_sub : T -> T -> T;
  t_div : T -> T -> T;
  t_of_nat : nat -> T;      (* a count, converted to the column's dtype *)
  t_notna : T -> bool;      (* Series.notna *)
  t_gt0 : T -> bool         (* Series > 0 *)
}.

Definition f64_of_nat (n : nat) : float :=
  PrimFloat.of_uint63 (Uint63.of_Z (Z.of_nat n)).

Definition f64_notna (x : float) : bool := negb (PrimFloat.is_nan x).

#[export] Instance Arith_f64 : Arith float := {
  t_zero := 0%float;
  t_add := PrimFloat.add;
  t_sub := PrimFloat.sub;
  t_div := PrimFloat.div;
  t_of_nat := f64_of_nat;
  t_notna := f64_notna;
  t_gt0 := fun x => PrimFloat.ltb 0%float x
}.

(** ** pandas primitives *)

Section Sorting.
Context {A : Type} (le : A -> A -> bool).

Fixpoint insert (x : A) (l : list A) : list A :=
  match l with
  | [] => [x]
  | y :: t => if le x y then x :: l else y :: insert x t
  end.

(** A stable ascending sort.  pandas' default [quicksort] leaves the order
    of rows with equal keys unspecified; this model keeps their order. *)
Definition sort_by (l : list A) : list A := fold_right insert [] l.
End Sorting.

Section GroupBy.
Context {R K : Type}.
Variable key : R -> K.
Variable K_eq_dec : forall a b : K, {a = b} + {a <> b}.
Variable K_leb : K -> K -> bool.

Definition has_key (k : K) (r : R) : bool :=
  if K_eq_dec (key r) k then true else false.

(** The group keys of [rows.groupby(key)]: the distinct keys, ascending
    ([sort=True] is the default). *)
Definition group_keys (rows : list R) : list K :=
  sort_by K_leb (nodup K_eq_dec (map key rows)).

(** Each group holds its rows in table order. *)
Definition groupby (rows : list R) : list (K * list R) :=
  map (fun k => (k, filter (has_key k) rows)) (group_keys rows).
End GroupBy.

(** Reductions of a [float64] column; like pandas', they skip NaN. *)
Module Agg.
Section Generic.
Context {T : Type} `{Arith T}.

Definition dropna (l : list T) : list T := filter t_notna l.

Definition sum (l : list T) : T := fold_left t_add l t_zero.

(** [Series.mean]: the sum of the non-null values over their count. *)
Definition mean (l : list T) : T :=
  let v := dropna l in t_div (sum v) (t_of_nat (List.length v)).
End Generic.

Definition count (l : list float) : Z := Z.of_nat (List.length (dropna l)).

Definition fmin (a b : float) : float := if PrimFloat.ltb b a then b else a.
Definition fmax (a b : float) : float := if PrimFloat.ltb a b then b else a.

Definition min (l : list float) : float :=
  match dropna l with
  | [] => PrimFloat.nan
  | x :: t => fold_left fmin t x
  end.

Definition max (l : list float) : float :=
  match dropna l with
  | [] => PrimFloat.nan
  | x :: t => fold_left fmax t x
  end.

(** Sample standard deviation ([ddof=1]): undefined below two values. *)
Definition std (l : list float) : float :=
  let v := dropna l in
  let n := List.length v in
  if (n <=? 1)%nat then PrimFloat.nan
  else
    let m := mean v in
    let sq := map (fun x => PrimFloat.mul (PrimFloat.sub x m) (PrimFloat.sub x m)) v in
    PrimFloat.sqrt (PrimFloat.div (sum sq) (f64_of_nat (n - 1))).

Definition median (l : list float) : float :=
  let s := sort_by PrimFloat.leb (dropna l) in
  let n := List.length s in
  if (n =? 0)%nat then PrimFloat.nan
  else if Nat.odd n then nth (n / 2) s PrimFloat.nan
  else PrimFloat.div
         (PrimFloat.add (nth (n / 2 - 1) s PrimFloat.nan) (nth (n / 2) s PrimFloat.nan))
         2%float.

(** [Series.dropna()] on an object column: the entries that are present. *)
Fixpoint somes {A : Type} (l : list (option A)) : list A :=
  match l with
  | [] => []
  | Some a :: t => a :: somes t
  | None :: t => somes t
  end.

(** [GroupBy.first]: the first non-null entry of the group. *)
Fixpoint first {A : Type} (l : list (option A)) : option A :=
  match l with
  | [] => None
  | Some a :: _ => Some a
  | None :: t => first t
  end.
End Agg.

(** [DataFrame.sort_values(col)] on a [float64] column: the rows with a
    value ascending, then the rows whose value is NaN
    ([na_position="last"]). *)
Definition sort_values_f64 {R : Type} (col : R -> float) (rows : list R) : list R :=
  sort_by (fun a b => PrimFloat.leb (col a) (col b))
          (filter (fun r => f64_notna (col r)) rows)
  ++ filter (fun r => PrimFloat.is_nan (col r)) rows.

(** The order that [sort_values] realises on floats: ascending, NaN last. *)
Definition f64_le_nan_last (a b : float) : Prop :=
  PrimFloat.is_nan b = true \/
  (PrimFloat.is_nan a = false /\ PrimFloat.leb a b = true).

(** [Series.unique()]: the distinct values in order of first appearance. *)
Fixpoint unique {A : Type} (A_eq_dec : forall a b : A, {a = b} + {a <> b})
    (l : list A) : list A :=
  match l with
  | [] => []
  | x :: t =>
      x :: filter (fun y => if A_eq_dec x y then false else true) (unique A_eq_dec t)
  end.

(** [range(a, b)] *)
Definition py_range (a b : Z) : list Z :=
  map (fun i => a + Z.of_nat i) (seq 0 (Z.to_nat (b - a))).

(** A frame that carries its column labels: [pd.DataFrame()] has none. *)
Record DataFrame (R : Type) := mkFrame {
  columns : list string;
  rows : list R
}.
Arguments mkFrame {R} _ _.
Arguments columns {R} _.
Arguments rows {R} _.

(** [DataFrame.empty]: some axis has length 0. *)
Definition df_empty {R : Type} (df : DataFrame R) : bool :=
  match columns df, rows df with
  | [], _ | _, [] => true
  | _, _ => false
  end.

Inductive exn : Type :=
| KeyError (label : string).

Inductive result (A : Type) : Type :=
| Returns (a : A)
| Raises (e : exn).
Arguments Returns {A} _.
Arguments Raises {A} _.

Definition bind {A B : Type} (m : result A) (k : A -> result B) : result B :=
  match m with
  | Returns a => k a
  | Raises e => Raises e
  end.

Notation "x <- m ;; k" := (bind m (fun x => k))
  (at level 61, m at next level, right associativity).

(** [df[label]]: a [KeyError] when the frame has no such column. *)
Definition column {R X : Type} (df : DataFrame R) (label : string)
    (field : R -> X) : result (list X) :=
  if existsb (String.eqb label) (columns df)
  then Returns (map field (rows df))
  else Raises (KeyError label).

(** [df.groupby(labels)]: every label must be a column. *)
Definition df_groupby {R K : Type} (df : DataFrame R) (labels : list string)
    (key : R -> K) (K_eq_dec : forall a b : K, {a = b} + {a <> b})
    (K_leb : K -> K -> bool) : result (list (K * list R)) :=
  match find (fun c => negb (existsb (String.eqb c) (columns df))) labels with
  | Some c => Raises (KeyError c)
  | None => Returns (groupby key K_eq_dec K_leb (rows df))
  end.

(** ** The lap table *)

Record Lap (T : Type) := mkLap {
  Team : string;
  Driver : string;
  Day : Z;
  Stint : Z;
  LapNumber : Z;
  Compound : option string;      (* None: null *)
  LapTimeSeconds : T             (* float64: NaN is null *)
}.
Arguments mkLap {T} _ _ _ _ _ _ _.
Arguments Team {T} _.
Arguments Driver {T} _.
Arguments Day {T} _.
Arguments Stint {T} _.
Arguments LapNumber {T} _.
Arguments Compound {T} _.
Arguments LapTimeSeconds {T} _.

Definition lap_columns : list string :=
  ["Team"; "Driver"; "Day"; "Stint"; "LapNumber"; "Compound"; "LapTimeSeconds"]%string.

Definition StintKey : Type := string * string * Z * Z.

Definition StintKey_eq_dec (a b : StintKey) : {a = b} + {a <> b}.
Proof. repeat decide equality. Defined.

Definition TeamDay_eq_dec (a b : string * Z) : {a = b} + {a <> b}.
Proof. repeat decide equality. Defined.

Definition lex (c1 c2 : comparison) : comparison :=
  match c1 with Eq => c2 | _ => c1 end.

Definition not_gt (c : comparison) : bool :=
  match c with Gt => false | _ => true end.

(** Tuples of group keys sort lexicographically. *)
Definition StintKey_leb (a b : StintKey) : bool :=
  let '(t1, d1, y1, s1) := a in
  let '(t2, d2, y2, s2) := b in
  not_gt (lex (String.compare t1 t2)
         (lex (String.compare d1 d2) (lex (y1 ?= y2) (s1 ?= s2)))).

Definition TeamDay_leb (a b : string * Z) : bool :=
  not_gt (lex (String.compare (fst a) (fst b)) (snd a ?= snd b)).

Definition stint_key {T : Type} (l : Lap T) : StintKey :=
  (Team l, Driver l, Day l, Stint l).

(** The rows that count as timed laps: a lap time that is present and
    positive. *)
Definition valid_lap {T : Type} `{Arith T} (l : Lap T) : bool :=
  t_notna (LapTimeSeconds l) && t_gt0 (LapTimeSeconds l).

(** ** Figures

    What a renderer hands back: the series it drew on each axis. *)
Record Line2D := mkLine {
  line_x : list Z;
  line_y : list float;
  line_color : string;
  line_linestyle : string
}.

Record Violin := mkViolin {
  violin_position : nat;
  violin_data : list float;
  violin_color : string
}.

Record Bar := mkBar {
  bar_label : string;
  bar_width : float;
  bar_color : string;
  bar_count : Z                  (* the "n=" annotation *)
}.

Record Axes := mkAxes {
  ax_title : string;
  ax_title_color : option string;
  ax_xlabel : string;
  ax_ylabel : string;
  ax_yaxis_inverted : bool;
  ax_ticklabels : list string;
  ax_lines : list Line2D;           (* in the order they were added *)
  ax_violins : list Violin;
  ax_bars : list Bar;
  ax_legend : list (string * string)
}.

Record Figure := mkFigure {
  fig_width : Z;
  fig_height : Z;
  fig_axes : list Axes;
  fig_suptitle : option string;
  fig_watermark : bool
}.

(** [str(n)] / [f"{n}"] on an integer. *)
Definition py_str_int (n : Z) : string := NilZero.string_of_int (Z.to_int n).

(** [d.get(k, default)] on a colour table. *)
Definition dict_get (d : string -> option string) (k default : string) : string :=
  match d k with Some c => c | None => default end.

(** ** long_runs.py *)
Module LongRuns.

Record StintAgg := mkStintAgg {
  s_Team : string;
  s_Driver : string;
  s_Day : Z;
  s_Stint : Z;
  StintLaps : Z;
  s_Compound : option string;
  MeanTime : float;
  StdTime : float;
  MinTime : float;
  MaxTime : float
}.

Record LongRun := mkLongRun {
  run : StintAgg;
  CoV : float;
  Range : float
}.

Definition run_key (r : LongRun) : StintKey :=
  (s_Team (run r), s_Driver (run r), s_Day (run r), s_Stint (run r)).

Record TraceLap (T : Type) := mkTraceLap {
  lap : Lap T;
  StintLapNumber : Z;
  DeltaFromMean : T
}.
Arguments mkTraceLap {T} _ _ _.
Arguments lap {T} _.
Arguments StintLapNumber {T} _.
Arguments DeltaFromMean {T} _.

Record Consistency := mkConsistency {
  c_Team : string;
  MeanCoV : float;
  MedianCoV : float;
  NumLongRuns : Z;
  MeanRange : float
}.

(** [a or b] on an optional integer: [None] and [0] are falsy. *)
Definition py_or (a : option Z) (b : Z) : Z :=
  match a with
  | Some n => if n =? 0 then b else n
  | None => b
  end.

Definition stint_agg (g : StintKey * list (Lap float)) : StintAgg :=
  let '((team, driver, day, stint), group) := g in
  let times := map LapTimeSeconds group in
  {| s_Team := team; s_Driver := driver; s_Day := day; s_Stint := stint;
     StintLaps := Agg.count times;
     s_Compound := Agg.first (map Compound group);
     MeanTime := Agg.mean times;
     StdTime := Agg.std times;
     MinTime := Agg.min times;
     MaxTime := Agg.max times |}.

Definition add_cov_range (s : StintAgg) : LongRun :=
  {| run := s;
     CoV := PrimFloat.div (StdTime s) (MeanTime s);
     Range := PrimFloat.sub (MaxTime s) (MinTime s) |}.

Section Pipeline.
(** [config.LONG_RUN_MIN_LAPS] *)
Variable LONG_RUN_MIN_LAPS : Z.

Definition identify_long_runs (laps : list (Lap float)) (min_laps : option Z)
    : list LongRun :=
  let threshold := py_or min_laps LONG_RUN_MIN_LAPS in
  let valid := filter (fun l => f64_notna (LapTimeSeconds l)) laps in
  let valid := filter (fun l => PrimFloat.ltb 0%float (LapTimeSeconds l)) valid in
  let stints :=
    map stint_agg (groupby stint_key StintKey_eq_dec StintKey_leb valid) in
  let long_runs := filter (fun s => StintLaps s >=? threshold) stints in
  map add_cov_range long_runs.
End Pipeline.

Section Traces.
Context {T : Type} `{Arith T}.

Definition stint_mask (r : LongRun) (l : Lap T) : bool :=
  String.eqb (Team l) (s_Team (run r))
  && String.eqb (Driver l) (s_Driver (run r))
  && (Day l =? s_Day (run r))
  && (Stint l =? s_Stint (run r))
  && t_notna (LapTimeSeconds l)
  && t_gt0 (LapTimeSeconds l).

(** One turn of the loop of [get_long_run_laps]. *)
Definition stint_trace (laps : list (Lap T)) (r : LongRun) : list (TraceLap T) :=
  let stint_laps := filter (stint_mask r) laps in
  let stint_laps := sort_by (fun a b => LapNumber a <=? LapNumber b) stint_laps in
  let numbers := py_range 1 (Z.of_nat (List.length stint_laps) + 1) in
  let m := Agg.mean (map LapTimeSeconds stint_laps) in
  map (fun ln => {| lap := fst ln;
                    StintLapNumber := snd ln;
                    DeltaFromMean := t_sub (LapTimeSeconds (fst ln)) m |})
      (combine stint_laps numbers).

Definition trace_columns : list string :=
  lap_columns ++ ["StintLapNumber"; "DeltaFromMean"]%string.

Definition get_long_run_laps (laps : list (Lap T)) (long_runs : list LongRun)
    : DataFrame (TraceLap T) :=
  let result := map (stint_trace laps) long_runs in
  match result with
  | [] => mkFrame [] []
  | _ => mkFrame trace_columns (List.concat result)
  end.
End Traces.

Definition consistency_agg (g : string * list LongRun) : Consistency :=
  let '(team, group) := g in
  {| c_Team := team;
     MeanCoV := Agg.mean (map CoV group);
     MedianCoV := Agg.median (map CoV group);
     NumLongRuns := Agg.count (map CoV group);
     MeanRange := Agg.mean (map Range group) |}.

Definition compute_consistency_by_team (long_runs : list LongRun)
    : list Consistency :=
  sort_values_f64 MedianCoV
    (map consistency_agg
       (groupby (fun r => s_Team (run r)) string_dec String.leb long_runs)).

Definition trace_key (t : TraceLap float) : StintKey := stint_key (lap t).

Section Renderers.
Variable LONG_RUN_MIN_LAPS : Z.
(** The collaborators of [plotting] and [config]. *)
Variable build_color_maps :
  list (Lap float) -> (string -> option string) * (string -> option string).
Variable get_compound_color : string -> string.
Variable TEAM_COLORS : string -> option string.
Variable FALLBACK_COLOR : string.

Definition trace_line (team_colors driver_colors : string -> option string)
    (g : StintKey * list (TraceLap float)) : Line2D :=
  let '((team, driver, day, stint), group) := g in
  {| line_x := map StintLapNumber group;
     line_y := map DeltaFromMean group;
     line_color := dict_get driver_colors driver
                     (dict_get team_colors team "#888888");
     line_linestyle := "-" |}.

(** [ax.axhline(y=0, color="#333333", linewidth=0.8, linestyle="--")]: one
    more [Line2D] on the axis, from its left edge (0) to its right edge (1)
    at height 0. *)
Definition zero_line : Line2D :=
  {| line_x := [0; 1];
     line_y := [0%float; 0%float];
     line_color := "#333333";
     line_linestyle := "--" |}.

Definition plot_long_run_traces (laps : list (Lap float))
    (long_runs : list LongRun) : result (option Figure) :=
  let '(team_colors, driver_colors) := build_color_maps laps in
  let run_laps := get_long_run_laps laps long_runs in
  if df_empty run_laps then Returns None
  else
    groups <- df_groupby run_laps ["Team"; "Driver"; "Day"; "Stint"]%string
                trace_key StintKey_eq_dec StintKey_leb ;;
    teams <- column run_laps "Team" (fun t => Team (lap t)) ;;
    let teams_in_data := unique string_dec teams in
    let handles :=
      map (fun t => (t, dict_get team_colors t "#888888"))
          (sort_by String.leb teams_in_data) in
    Returns (Some
      {| fig_width := 14; fig_height := 8;
         fig_axes :=
           [ {| ax_title := ("Long Run Lap Time Traces (stints ≥ "
                              ++ py_str_int LONG_RUN_MIN_LAPS ++ " laps)")%string;
                ax_title_color := None;
                ax_xlabel := "Lap Within Stint";
                ax_ylabel := "Delta from Stint Mean (seconds)";
                ax_yaxis_inverted := false;
                ax_ticklabels := [];
                ax_lines := map (trace_line team_colors driver_colors) groups
                            ++ [zero_line];
                ax_violins := [];
                ax_bars := [];
                ax_legend := handles |} ];
         fig_suptitle := None;
         fig_watermark := true |}).

Definition consistency_bar (c : Consistency) : Bar :=
  {| bar_label := c_Team c;
     bar_width := PrimFloat.mul (MedianCoV c) 100%float;
     bar_color := dict_get TEAM_COLORS (c_Team c) FALLBACK_COLOR;
     bar_count := NumLongRuns c |}.

Definition plot_consistency_rankings (long_runs : list LongRun)
    : result (option Figure) :=
  let consistency := compute_consistency_by_team long_runs in
  match consistency with
  | [] => Returns None
  | _ =>
    Returns (Some
      {| fig_width := 12; fig_height := 7;
         fig_axes :=
           [ {| ax_title := "Long Run Consistency by Team (lower = more consistent)";
                ax_title_color := None;
                ax_xlabel := "Median Coefficient of Variation (%)";
                ax_ylabel := "";
                ax_yaxis_inverted := true;
                ax_ticklabels := map c_Team consistency;
                ax_lines := [];
                ax_violins := [];
                ax_bars := map consistency_bar consistency;
                ax_legend := [] |} ];
         fig_suptitle := None;
         fig_watermark := true |})
  end.

Definition compound_axes (team_colors driver_colors : string -> option string)
    (run_laps : DataFrame (TraceLap float)) (compound : string) : Axes :=
  let compound_data :=
    filter (fun t => match Compound (lap t) with
                     | Some c => String.eqb c compound
                     | None => false
                     end) (rows run_laps) in
  {| ax_title := compound;
     ax_title_color := Some (get_compound_color compound);
     ax_xlabel := "Lap Within Stint";
     ax_ylabel := "Delta from Stint Mean (s)";
     ax_yaxis_inverted := false;
     ax_ticklabels := [];
     ax_lines := map (trace_line team_colors driver_colors)
                     (groupby trace_key StintKey_eq_dec StintKey_leb compound_data)
                 ++ [zero_line];
     ax_violins := [];
     ax_bars := [];
     ax_legend := [] |}.

Definition plot_long_runs_by_compound (laps : list (Lap float))
    (long_runs : list LongRun) : result (option Figure) :=
  let '(team_colors, driver_colors) := build_color_maps laps in
  let run_laps := get_long_run_laps laps long_runs in
  if df_empty run_laps then Returns None
  else
    col <- column run_laps "Compound" (fun t => Compound (lap t)) ;;
    let compounds := sort_by String.leb (unique string_dec (Agg.somes col)) in
    let n := Z.of_nat (List.length compounds) in
    if n =? 0 then Returns None
    else
      _ <- df_groupby run_laps ["Team"; "Driver"; "Day"; "Stint"]%string
             trace_key StintKey_eq_dec StintKey_leb ;;
      Returns (Some
        {| fig_width := 14; fig_height := 5 * n;
           fig_axes := map (compound_axes team_colors driver_colors run_laps) compounds;
           fig_suptitle :=
             Some ("Long Run Traces by Compound (stints ≥ "
                   ++ py_str_int LONG_RUN_MIN_LAPS ++ " laps)")%string;
           fig_watermark := true |}).

Definition generate_all (laps : list (Lap float))
    : result (list (string * option Figure)) :=
  let long_runs := identify_long_runs LONG_RUN_MIN_LAPS laps None in
  f1 <- plot_long_run_traces laps long_runs ;;
  f2 <- plot_consistency_rankings long_runs ;;
  f3 <- plot_long_runs_by_compound laps long_runs ;;
  Returns [("long_run_traces", f1); ("consistency_rankings", f2);
           ("long_runs_by_compound", f3)]%string.
End Renderers.
End LongRuns.

(** ** distributions.py *)
Module Distributions.

Record TeamAgg := mkTeamAgg {
  a_Team : string;
  a_min : float;
  a_median : float;
  a_mean : float;
  a_std : float;
  a_count : Z
}.

Record TeamStats := mkTeamStats {
  agg : TeamAgg;
  headline_gap : float
}.

Definition team_agg (g : string * list (Lap float)) : TeamAgg :=
  let '(team, group) := g in
  let times := map LapTimeSeconds group in
  {| a_Team := team;
     a_min := Agg.min times;
     a_median := Agg.median times;
     a_mean := Agg.mean times;
     a_std := Agg.std times;
     a_count := Agg.count times |}.

Definition add_headline_gap (s : TeamAgg) : TeamStats :=
  {| agg := s; headline_gap := PrimFloat.sub (a_median s) (a_min s) |}.

Definition compute_team_stats (laps : list (Lap float)) : list TeamStats :=
  let stats := map team_agg (groupby Team string_dec String.leb laps) in
  let stats := map add_headline_gap stats in
  sort_values_f64 (fun s => a_median (agg s)) stats.

(** [laps.groupby("Team")["LapTimeSeconds"].median().sort_values().index] *)
Definition teams_by_median (laps : list (Lap float)) : list string :=
  map fst
    (sort_values_f64 snd
       (map (fun g => (fst g, Agg.median (map LapTimeSeconds (snd g))))
            (groupby Team string_dec String.leb laps))).

(** The violin loop: a team without a non-null lap time is skipped, its
    position stays free. *)
Definition team_violins (team_colors : string -> option string)
    (laps : list (Lap float)) (teams_ordered : list string) : list Violin :=
  flat_map
    (fun it : nat * string =>
       let '(i, team) := it in
       let team_data :=
         Agg.dropna (map LapTimeSeconds
                       (filter (fun l => String.eqb (Team l) team) laps)) in
       match team_data with
       | [] => []
       | _ => [ {| violin_position := i;
                   violin_data := team_data;
                   violin_color := dict_get team_colors team "#888888" |} ]
       end)
    (combine (seq 0 (List.length teams_ordered)) teams_ordered).

Definition option_string_eq_dec (a b : option string) : {a = b} + {a <> b}.
Proof. repeat decide equality. Defined.

Section Renderers.
Variable build_color_maps :
  list (Lap float) -> (string -> option string) * (string -> option string).
Variable get_compound_color : string -> string.

Definition plot_team_violins (laps : list (Lap float)) : result (option Figure) :=
  let '(team_colors, _) := build_color_maps laps in
  let teams_ordered := teams_by_median laps in
  Returns (Some
    {| fig_width := 14; fig_height := 8;
       fig_axes :=
         [ {| ax_title := "Lap Time Distributions by Team";
              ax_title_color := None;
              ax_xlabel := "";
              ax_ylabel := "Lap Time (seconds)";
              ax_yaxis_inverted := false;
              ax_ticklabels := teams_ordered;
              ax_lines := [];
              ax_violins := team_violins team_colors laps teams_ordered;
              ax_bars := [];
              ax_legend := [] |} ];
       fig_suptitle := None;
       fig_watermark := true |}).

Definition compound_panel (team_colors : string -> option string)
    (laps : list (Lap float)) (compound : string) : Axes :=
  let compound_laps :=
    filter (fun l => match Compound l with
                     | Some c => String.eqb c compound
                     | None => false
                     end) laps in
  let teams_ordered := teams_by_median compound_laps in
  {| ax_title := (compound ++ " Compound")%string;
     ax_title_color := Some (get_compound_color compound);
     ax_xlabel := "";
     ax_ylabel := "Lap Time (seconds)";
     ax_yaxis_inverted := false;
     ax_ticklabels := teams_ordered;
     ax_lines := [];
     ax_violins := team_violins team_colors compound_laps teams_ordered;
     ax_bars := [];
     ax_legend := [] |}.

Definition plot_compound_distributions (laps : list (Lap float))
    : result (option Figure) :=
  let '(team_colors, _) := build_color_maps laps in
  let present := unique option_string_eq_dec (map Compound laps) in
  let compounds :=
    filter (fun c => if in_dec option_string_eq_dec (Some c) present
                     then true else false)
           ["SOFT"; "MEDIUM"; "HARD"]%string in
  let compounds :=
    match compounds with
    | [] => unique string_dec (Agg.somes (map Compound laps))
    | _ => compounds
    end in
  let n_compounds := Z.of_nat (List.length compounds) in
  if n_compounds =? 0 then Returns None
  else
    Returns (Some
      {| fig_width := 14; fig_height := 5 * n_compounds;
         fig_axes := map (compound_panel team_colors laps) compounds;
         fig_suptitle := Some "Lap Time Distributions by Compound"%string;
         fig_watermark := true |}).
End Renderers.
End Distributions.

(** ** reliability.py *)
Module Reliability.

(** A pivot table: one row of cells per index label, one cell per column
    label. *)
Record Pivot (V : Type) := mkPivot {
  index : list string;
  day_columns : list Z;
  cells : list (list V)
}.
Arguments mkPivot {V} _ _ _.
Arguments index {V} _.
Arguments day_columns {V} _.
Arguments cells {V} _.

(** [groupby([Team, Day]).size().reset_index(name="Laps")] *)
Definition team_day_sizes {T : Type} (laps : list (Lap T))
    : list ((string * Z) * Z) :=
  map (fun g => (fst g, Z.of_nat (List.length (snd g))))
      (groupby (fun l : Lap T => (Team l, Day l)) TeamDay_eq_dec TeamDay_leb laps).

Definition lookup_cell (sizes : list ((string * Z) * Z)) (team : string) (day : Z)
    : option Z :=
  match find (fun e => if TeamDay_eq_dec (fst e) (team, day) then true else false)
             sizes with
  | Some e => Some (snd e)
  | None => None
  end.

(** [pivot(index="Team", columns="Day", values="Laps")]: a pair without a
    row in the long table gets a missing cell (NaN). *)
Definition pivot (sizes : list ((string * Z) * Z)) : Pivot (option Z) :=
  let teams := sort_by String.leb (nodup string_dec (map (fun e => fst (fst e)) sizes)) in
  let days := sort_by Z.leb (nodup Z.eq_dec (map (fun e => snd (fst e)) sizes)) in
  mkPivot teams days
    (map (fun team => map (fun day => lookup_cell sizes team day) days) teams).

Definition fillna (v : Z) (p : Pivot (option Z)) : Pivot Z :=
  mkPivot (index p) (day_columns p)
    (map (map (fun c => match c with Some n => n | None => v end)) (cells p)).

(** [astype(int)]: the cells are whole numbers already. *)
Definition astype_int (p : Pivot Z) : Pivot Z := p.

Definition compute_laps_per_team_day {T : Type} (laps : list (Lap T)) : Pivot Z :=
  astype_int (fillna 0 (pivot (team_day_sizes laps))).

Record TeamTotal := mkTeamTotal {
  t_Team : string;
  TotalLaps : Z
}.

Definition compute_total_laps {T : Type} (laps : list (Lap T)) : list TeamTotal :=
  let totals :=
    map (fun g => {| t_Team := fst g; TotalLaps := Z.of_nat (List.length (snd g)) |})
        (groupby (@Team T) string_dec String.leb laps) in
  sort_by (fun a b => TotalLaps b <=? TotalLaps a) totals.

(** An integer, as the [float64] pandas computes its mean with. *)
Definition f64_of_Z (z : Z) : float := PrimFloat.of_uint63 (Uint63.of_Z z).

(** [max] of an integer column; the groups it is taken over have a row. *)
Definition int_max (l : list Z) : Z :=
  match l with
  | [] => 0
  | x :: t => fold_left Z.max t x
  end.

(** [groupby([Team, Driver, Day, Stint]).agg(StintLaps=("LapNumber", "count"))]:
    LapNumber has no nulls, the count is the size of the group. *)
Definition stint_sizes {T : Type} (laps : list (Lap T)) : list (StintKey * Z) :=
  map (fun g => (fst g, Z.of_nat (List.length (snd g))))
      (groupby (@stint_key T) StintKey_eq_dec StintKey_leb laps).

Definition stint_team (s : StintKey * Z) : string := fst (fst (fst (fst s))).

Record StintSummary := mkStintSummary {
  ss_Team : string;
  TotalStints : Z;
  MaxStintLength : Z;
  MeanStintLength : float
}.

Definition stint_summary_agg (g : string * list (StintKey * Z)) : StintSummary :=
  {| ss_Team := fst g;
     TotalStints := Z.of_nat (List.length (snd g));
     MaxStintLength := int_max (map snd (snd g));
     MeanStintLength := Agg.mean (map (fun s => f64_of_Z (snd s)) (snd g)) |}.

Definition compute_stint_summary {T : Type} (laps : list (Lap T)) : list StintSummary :=
  let stints := stint_sizes laps in
  let summary :=
    map stint_summary_agg (groupby stint_team string_dec String.leb stints) in
  sort_by (fun a b => TotalStints b <=? TotalStints a) summary.

Definition TeamDriver_eq_dec (a b : string * string) : {a = b} + {a <> b}.
Proof. repeat decide equality. Defined.

Definition TeamDriver_leb (a b : string * string) : bool :=
  not_gt (lex (String.compare (fst a) (fst b)) (String.compare (snd a) (snd b))).

Record DriverLaps := mkDriverLaps {
  d_Team : string;
  d_Driver : string;
  Laps : Z
}.

(** [sort_values(["Team", "Laps"], ascending=[True, False])] *)
Definition team_then_most_laps (a b : DriverLaps) : bool :=
  match String.compare (d_Team a) (d_Team b) with
  | Lt => true
  | Gt => false
  | Eq => Laps b <=? Laps a
  end.

Definition compute_laps_per_driver {T : Type} (laps : list (Lap T)) : list DriverLaps :=
  sort_by team_then_most_laps
    (map (fun g => {| d_Team := fst (fst g); d_Driver := snd (fst g);
                      Laps := Z.of_nat (List.length (snd g)) |})
         (groupby (fun l : Lap T => (Team l, Driver l))
                  TeamDriver_eq_dec TeamDriver_leb laps)).

(** The heat map of [plot_laps_heatmap]: the teams down the y axis, the days
    along the x axis, and in every cell its value as text, white on the
    dark cells. *)
Record HeatCell := mkHeatCell {
  cell_value : Z;
  cell_text_color : string
}.

Record Heatmap := mkHeatmap {
  hm_yticklabels : list string;
  hm_xticklabels : list Z;            (* the c of "Day c" *)
  hm_cells : list (list HeatCell)
}.

Definition row_total (row : list Z) : Z := fold_right Z.add 0 row.

Definition heat_cell (peak : Z) (val : Z) : HeatCell :=
  {| cell_value := val;
     cell_text_color :=
       if PrimFloat.ltb (PrimFloat.mul (f64_of_Z peak) 0.6%float) (f64_of_Z val)
       then "white" else "#333333" |}.

Definition plot_laps_heatmap {T : Type} (laps : list (Lap T)) : Heatmap :=
  let grid := compute_laps_per_team_day laps in
  let with_total :=
    map (fun tr => (tr, row_total (snd tr))) (combine (index grid) (cells grid)) in
  let sorted := sort_by (fun a b => snd a <=? snd b) with_total in
  let display := map fst sorted in
  let peak := int_max (List.concat (map snd display)) in
  {| hm_yticklabels := map fst display;
     hm_xticklabels := day_columns grid;
     hm_cells := map (fun tr => map (heat_cell peak) (snd tr)) display |}.
End Reliability.

(** ** Vocabulary of the statements *)

Definition valid_laps {T : Type} `{Arith T} (laps : list (Lap T)) : list (Lap T) :=
  filter valid_lap laps.

(** The rows of one stint, of one team, in table order. *)
Definition stint_rows {T : Type} (k : StintKey) (rows : list (Lap T)) : list (Lap T) :=
  filter (has_key stint_key StintKey_eq_dec k) rows.

Definition team_rows {T : Type} (team : string) (rows : list (Lap T)) : list (Lap T) :=
  filter (has_key Team string_dec team) rows.

(** A function of the lap table that sees the valid laps only. *)
Definition aggregates_valid_laps_only {X : Type} (f : list (Lap float) -> X) : Prop :=
  forall laps, f laps = f (valid_laps laps).

(** The claim that [identify_long_runs] returns exactly the stints with at
    least [N] valid laps, for a threshold [N] passed as [min_laps]. *)
Definition returns_stints_at_least (c : Z) (laps : list (Lap float)) (N : Z) : Prop :=
  forall k,
    In k (map LongRuns.run_key (LongRuns.identify_long_runs c laps (Some N))) <->
    In k (map stint_key (valid_laps laps)) /\
    N <= Z.of_nat (List.length (stint_rows k (valid_laps laps))).

(** The claim that a long run carries the Compound of the first lap of its
    group. *)
Definition compound_of_first_lap (c : Z) (laps : list (Lap float)) (N : Z) : Prop :=
  forall r,
    In r (LongRuns.identify_long_runs c laps (Some N)) ->
    LongRuns.s_Compound (LongRuns.run r)
    = hd None (map Compound (stint_rows (LongRuns.run_key r) (valid_laps laps))).

(** The claim that [compute_team_stats] has one row per team with a valid
    lap, and none for a team without. *)
Definition one_row_per_team_with_valid_lap (laps : list (Lap float)) : Prop :=
  Permutation
    (map (fun s => Distributions.a_Team (Distributions.agg s))
         (Distributions.compute_team_stats laps))
    (nodup string_dec (map Team (valid_laps laps))).

(** The laps of one team on one day. *)
Definition laps_on {T : Type} (team : string) (day : Z) (laps : list (Lap T))
    : list (Lap T) :=
  filter (has_key (fun l : Lap T => (Team l, Day l)) TeamDay_eq_dec (team, day)) laps.

(** The rows of one stint in the frame of [get_long_run_laps]. *)
Definition stint_group {T : Type} (k : StintKey)
    (df : DataFrame (LongRuns.TraceLap T)) : list (LongRuns.TraceLap T) :=
  filter (has_key (fun t => stint_key (LongRuns.lap t)) StintKey_eq_dec k) (rows df).

(** The laps selected for a stint, in the order of their LapNumber. *)
Definition ordered_stint_laps {T : Type} `{Arith T} (laps : list (Lap T))
    (r : LongRuns.LongRun) : list (Lap T) :=
  sort_by (fun a b => LapNumber a <=? LapNumber b) (filter (LongRuns.stint_mask r) laps).

(** The sum of an integer column. *)
Definition total (l : list Z) : Z := fold_right Z.add 0 l.

(** A three-way comparison that is a strict total order with [Eq] as
    equality. *)
Record order_compare {A : Type} (cmp : A -> A -> comparison) : Prop := {
  cmp_swap : forall a b, cmp a b = CompOpp (cmp b a);
  cmp_Eq : forall a b, cmp a b = Eq -> a = b;
  cmp_Lt_trans : forall a b c, cmp a b = Lt -> cmp b c = Lt -> cmp a c = Lt
}.

(** The order of [sort_values(["Team", "Laps"], ascending=[True, False])]. *)
Definition team_then_most_laps_order (a b : Reliability.DriverLaps) : Prop :=
  String.compare (Reliability.d_Team a) (Reliability.d_Team b) = Lt \/
  (Reliability.d_Team a = Reliability.d_Team b /\
   Reliability.Laps b <= Reliability.Laps a).

(** The lexicographic comparison of stint keys: Team, then Driver, then Day,
    then Stint. *)
Definition StintKey_compare (a b : StintKey) : comparison :=
  lex (lex (lex (String.compare (fst (fst (fst a))) (fst (fst (fst b))))
                (String.compare (snd (fst (fst a))) (snd (fst (fst b)))))
           (snd (fst a) ?= snd (fst b)))
      (snd a ?= snd b).

Definition StintKey_precedes (a b : StintKey) : Prop :=
  StintKey_compare a b = Lt \/ a = b.

(** The compounds that [plot_compound_distributions] looks for first. *)
Definition standard_compounds : list string := ["SOFT"; "MEDIUM"; "HARD"]%string.









(** ** Sample tables *)

(** The scenario of the specification: one stint of five laps. *)
Definition scenario_laps : list (Lap float) :=
  [ mkLap "A" "X" 1 1 1 (Some "SOFT"%string) 90%float;
    mkLap "A" "X" 1 1 2 (Some "SOFT"%string) 91%float;
    mkLap "A" "X" 1 1 3 (Some "SOFT"%string) 89%float;
    mkLap "A" "X" 1 1 4 (Some "SOFT"%string) 92%float;
    mkLap "A" "X" 1 1 5 (Some "SOFT"%string) 90%float ].

(** Team A has a lap timed 0, team B only a lap without a time. *)
Definition untimed_laps : list (Lap float) :=
  [ mkLap "A" "X" 1 1 1 (Some "SOFT"%string) 90%float;
    mkLap "A" "X" 1 1 2 (Some "SOFT"%string) 0%float;
    mkLap "B" "Y" 1 1 1 (Some "HARD"%string) PrimFloat.nan ].

(** A stint of a single lap. *)
Definition single_lap : list (Lap float) :=
  [ mkLap "A" "X" 1 1 1 (Some "SOFT"%string) 90%float ].

(** A stint of two laps whose first lap has no Compound. *)
Definition late_compound_laps : list (Lap float) :=
  [ mkLap "A" "X" 1 1 1 None 90%float;
    mkLap "A" "X" 1 1 2 (Some "SOFT"%string) 91%float ].





(** A short stint whose lap has no Compound, and collaborators that know no
    colour. *)
Definition no_compound_laps : list (Lap float) :=
  [ mkLap "A" "X" 1 1 1 None 90%float ].

Definition no_color_maps (laps : list (Lap float))
    : (string -> option string) * (string -> option string) :=
  (fun _ => None, fun _ => None).

(** * Properties *)

(** ** Sorting *)

Section SortingFacts.
Context {A : Type} (le : A -> A -> bool).

Lemma insert_perm (x : A) (l : list A) : Permutation (insert le x l) (x :: l).
Proof.
  induction l as [|y t IH]; simpl; [reflexivity|].
  destruct (le x y); [reflexivity|].
  rewrite IH. apply perm_swap.
Qed.

Lemma sort_by_perm (l : list A) : Permutation (sort_by le l) l.
Proof.
  induction l as [|x t IH]; simpl; [constructor|].
  rewrite insert_perm. now constructor.
Qed.

Lemma sort_by_In (x : A) (l : list A) : In x (sort_by le l) <-> In x l.
Proof.
  split; apply Permutation_in; [|symmetry]; apply sort_by_perm.
Qed.

Lemma sort_by_NoDup (l : list A) : NoDup l -> NoDup (sort_by le l).
Proof.
  apply Permutation_NoDup. symmetry. apply sort_by_perm.
Qed.

Lemma sort_by_Forall (P : A -> Prop) (l : list A) :
  Forall P l -> Forall P (sort_by le l).
Proof.
  apply Permutation_Forall. symmetry. apply sort_by_perm.
Qed.

Section Order.
(** The order need only be total and transitive on the values that are
    sorted (for floats: away from NaN). *)
Variable dom : A -> Prop.
Hypothesis le_total :
  forall a b, dom a -> dom b -> le a b = false -> le b a = true.
Hypothesis le_trans :
  forall a b c, dom a -> dom b -> dom c ->
                le a b = true -> le b c = true -> le a c = true.

Lemma insert_sorted (x : A) (l : list A) :
  dom x -> Forall dom l ->
  StronglySorted (fun a b => le a b = true) l ->
  StronglySorted (fun a b => le a b = true) (insert le x l).
Proof.
  intros Hx Hl Hs. induction Hs as [|y t Hs IH Hy]; simpl.
  - repeat constructor.
  - inversion Hl as [|? ? Hdy Hdt]; subst.
    destruct (le x y) eqn:E.
    + constructor; [now constructor|].
      constructor; [exact E|].
      rewrite Forall_forall in *. intros z Hz.
      apply (le_trans x y z); auto.
    + constructor; [now apply IH|].
      assert (Hp : Permutation (x :: t) (insert le x t))
        by (symmetry; apply insert_perm).
      apply (Permutation_Forall Hp).
      constructor; [now apply le_total | exact Hy].
Qed.

Lemma sort_by_sorted (l : list A) :
  Forall dom l -> StronglySorted (fun a b => le a b = true) (sort_by le l).
Proof.
  induction 1 as [|x t Hx Ht IH]; simpl; [constructor|].
  apply insert_sorted; auto. now apply sort_by_Forall.
Qed.
End Order.
End SortingFacts.

(** ** Grouping *)

Section GroupByFacts.
Context {R K : Type}.
Variable key : R -> K.
Variable K_eq_dec : forall a b : K, {a = b} + {a <> b}.
Variable K_leb : K -> K -> bool.

Lemma has_key_true (k : K) (r : R) : has_key key K_eq_dec k r = true <-> key r = k.
Proof.
  unfold has_key. destruct (K_eq_dec (key r) k); split; congruence.
Qed.

Lemma group_keys_perm (rows : list R) :
  Permutation (group_keys key K_eq_dec K_leb rows) (nodup K_eq_dec (map key rows)).
Proof. apply sort_by_perm. Qed.

Lemma group_keys_NoDup (rows : list R) : NoDup (group_keys key K_eq_dec K_leb rows).
Proof. apply sort_by_NoDup, NoDup_nodup. Qed.

Lemma group_keys_In (k : K) (rows : list R) :
  In k (group_keys key K_eq_dec K_leb rows) <-> In k (map key rows).
Proof.
  unfold group_keys. rewrite sort_by_In. apply nodup_In.
Qed.

Lemma groupby_keys (rows : list R) :
  map fst (groupby key K_eq_dec K_leb rows) = group_keys key K_eq_dec K_leb rows.
Proof.
  unfold groupby. rewrite map_map. simpl. apply map_id.
Qed.

Lemma groupby_In (k : K) (g : list R) (rows : list R) :
  In (k, g) (groupby key K_eq_dec K_leb rows) <->
  In k (map key rows) /\ g = filter (has_key key K_eq_dec k) rows.
Proof.
  unfold groupby. rewrite in_map_iff. split.
  - intros (k' & E & Hin). inversion E; subst.
    split; [now apply group_keys_In | reflexivity].
  - intros (Hin & ->). exists k. split; [reflexivity | now apply group_keys_In].
Qed.

Lemma groupby_nil (rows : list R) :
  groupby key K_eq_dec K_leb rows = [] <-> rows = [].
Proof.
  split.
  - intros E. destruct rows as [|r t]; [reflexivity|].
    assert (Hin : In (key r) (group_keys key K_eq_dec K_leb (r :: t))).
    { apply group_keys_In. now left. }
    rewrite <- groupby_keys, E in Hin. destruct Hin.
  - intros ->. reflexivity.
Qed.
End GroupByFacts.

(** ** Binary64 facts *)

Lemma is_nan_SF (x : float) : PrimFloat.is_nan x = true <-> Prim2SF x = S754_nan.
Proof.
  unfold PrimFloat.is_nan. rewrite FloatAxioms.eqb_spec. unfold SFeqb.
  destruct (Prim2SF x) as [s|s| |s m e]; simpl; split; try discriminate; auto.
  - destruct s; discriminate.
  - destruct s; simpl; rewrite Z.compare_refl, Pos.compare_cont_refl; discriminate.
Qed.

(** NaN propagates through a division. *)
Lemma div_nan_l (x y : float) :
  PrimFloat.is_nan x = true -> PrimFloat.is_nan (PrimFloat.div x y) = true.
Proof.
  intros Hx. apply is_nan_SF in Hx. apply is_nan_SF.
  rewrite FloatAxioms.div_spec. unfold SF64div. rewrite Hx. reflexivity.
Qed.

Lemma compare_cont_swap (p q : positive) :
  Pos.compare_cont Eq q p = CompOpp (Pos.compare_cont Eq p q).
Proof. rewrite (Pos.compare_cont_antisym p q Eq). reflexivity. Qed.

Lemma SFcompare_swap (a b : spec_float) (c : comparison) :
  SFcompare a b = Some c -> SFcompare b a = Some (CompOpp c).
Proof.
  destruct a as [sa|sa| |sa ma ea], b as [sb|sb| |sb mb eb]; simpl;
    intros E; inversion E; clear E; subst;
    try destruct sa; try destruct sb; simpl; try reflexivity.
  all: rewrite (Z.compare_antisym ea eb); destruct (ea ?= eb)%Z; simpl; try reflexivity.
  all: rewrite (compare_cont_swap ma mb); rewrite ?CompOpp_involutive; reflexivity.
Qed.

Lemma SFcompare_defined (a b : spec_float) :
  a <> S754_nan -> b <> S754_nan -> exists c, SFcompare a b = Some c.
Proof.
  destruct a, b; simpl; intros Ha Hb; try congruence; eexists; reflexivity.
Qed.

Lemma f64_leb_total (a b : float) :
  PrimFloat.is_nan a = false -> PrimFloat.is_nan b = false ->
  PrimFloat.leb a b = false -> PrimFloat.leb b a = true.
Proof.
  intros Ha Hb. rewrite !FloatAxioms.leb_spec. unfold SFleb.
  assert (Ha' : Prim2SF a <> S754_nan) by (intro E; apply is_nan_SF in E; congruence).
  assert (Hb' : Prim2SF b <> S754_nan) by (intro E; apply is_nan_SF in E; congruence).
  destruct (SFcompare_defined _ _ Ha' Hb') as (c & Hc).
  rewrite Hc, (SFcompare_swap _ _ _ Hc). destruct c; simpl; congruence.
Qed.

Lemma SFleb_trans (a b c : spec_float) :
  SFleb a b = true -> SFleb b c = true -> SFleb a c = true.
Proof.
  unfold SFleb, SFcompare.
  destruct a as [sa|sa| |sa ma ea], b as [sb|sb| |sb mb eb], c as [sc|sc| |sc mc ec];
    try destruct sa; try destruct sb; try destruct sc; simpl;
    try discriminate; try reflexivity.
  all: change (Pos.compare_cont Eq) with Pos.compare.
  all: destruct (Z.compare_spec ea eb); simpl; try discriminate;
       destruct (Z.compare_spec eb ec); simpl; try discriminate;
       destruct (Z.compare_spec ea ec); simpl; try reflexivity; try lia.
  all: subst.
  all: destruct (Pos.compare_spec ma mb); simpl; try discriminate;
       destruct (Pos.compare_spec mb mc); simpl; try discriminate;
       destruct (Pos.compare_spec ma mc); simpl; try reflexivity; try lia.
Qed.

Lemma f64_leb_trans (a b c : float) :
  PrimFloat.leb a b = true -> PrimFloat.leb b c = true -> PrimFloat.leb a c = true.
Proof. rewrite !FloatAxioms.leb_spec. apply SFleb_trans. Qed.

Lemma f64_notna_true (x : float) : f64_notna x = true <-> PrimFloat.is_nan x = false.
Proof. unfold f64_notna. destruct (PrimFloat.is_nan x); simpl; split; congruence. Qed.

(** ** [sort_values] *)

Lemma StronglySorted_app {A : Type} (Rel : A -> A -> Prop) (l1 l2 : list A) :
  StronglySorted Rel l1 -> StronglySorted Rel l2 ->
  (forall a b, In a l1 -> In b l2 -> Rel a b) ->
  StronglySorted Rel (l1 ++ l2).
Proof.
  intros H1 H2 H12. induction H1 as [|x t Ht IH Hx]; simpl; [exact H2|].
  constructor.
  - apply IH. intros a b Ha Hb. apply H12; [now right | exact Hb].
  - apply Forall_app. split; [exact Hx|].
    apply Forall_forall. intros b Hb. apply H12; [now left | exact Hb].
Qed.

Lemma StronglySorted_weaken {A : Type} (dom : A -> Prop) (R1 R2 : A -> A -> Prop)
    (l : list A) :
  (forall a b, dom a -> dom b -> R1 a b -> R2 a b) ->
  Forall dom l -> StronglySorted R1 l -> StronglySorted R2 l.
Proof.
  intros Himp Hd Hs. induction Hs as [|x t Ht IH Hx]; [constructor|].
  inversion Hd as [|? ? Hdx Hdt]; subst. constructor; [now apply IH|].
  rewrite Forall_forall in *. intros y Hy. apply Himp; auto.
Qed.

Lemma StronglySorted_map {A B : Type} (f : A -> B) (Rel : B -> B -> Prop) (l : list A) :
  StronglySorted (fun a b => Rel (f a) (f b)) l -> StronglySorted Rel (map f l).
Proof.
  induction 1 as [|x t Ht IH Hx]; simpl; constructor; [exact IH|].
  apply Forall_map. exact Hx.
Qed.

Lemma filter_split_perm {A : Type} (f g : A -> bool) (l : list A) :
  (forall x, g x = negb (f x)) ->
  Permutation (filter f l ++ filter g l) l.
Proof.
  intros Hg. induction l as [|x t IH]; simpl; [constructor|].
  rewrite Hg. destruct (f x); simpl.
  - now constructor.
  - rewrite <- Permutation_middle. now constructor.
Qed.

Section SortValues.
Context {R : Type} (col : R -> float).

Lemma sort_values_f64_perm (rows : list R) :
  Permutation (sort_values_f64 col rows) rows.
Proof.
  unfold sort_values_f64. rewrite sort_by_perm.
  apply filter_split_perm. intros x. unfold f64_notna.
  now destruct (PrimFloat.is_nan (col x)).
Qed.

(** The rows come out ascending in [col], those without a value last. *)
Lemma sort_values_f64_sorted (rows : list R) :
  StronglySorted f64_le_nan_last (map col (sort_values_f64 col rows)).
Proof.
  apply StronglySorted_map. unfold sort_values_f64.
  apply StronglySorted_app.
  - apply (StronglySorted_weaken
             (fun r => PrimFloat.is_nan (col r) = false)
             (fun a b => PrimFloat.leb (col a) (col b) = true)).
    + intros a b Ha Hb Hab. right. split; assumption.
    + apply sort_by_Forall, Forall_forall. intros r Hr.
      apply filter_In in Hr as [_ Hr]. now apply f64_notna_true.
    + apply (sort_by_sorted _ (fun r => PrimFloat.is_nan (col r) = false)).
      * intros a b Ha Hb. now apply f64_leb_total.
      * intros a b c _ _ _. apply f64_leb_trans.
      * apply Forall_forall. intros r Hr.
        apply filter_In in Hr as [_ Hr]. now apply f64_notna_true.
  - apply (StronglySorted_weaken (fun r => PrimFloat.is_nan (col r) = true)
             (fun _ _ => True)).
    + intros a b _ Hb _. now left.
    + apply Forall_forall. intros r Hr. now apply filter_In in Hr as [_ Hr].
    + generalize (filter (fun r => PrimFloat.is_nan (col r)) rows).
      induction l; constructor; auto. apply Forall_forall. auto.
  - intros a b _ Hb. left. now apply filter_In in Hb as [_ Hb].
Qed.
End SortValues.

(** ** [identify_long_runs] *)

Import LongRuns.

(** Every returned row is the aggregate of one group of the valid laps, with
    [CoV] and [Range] derived from it, and passed the threshold. *)
Lemma identify_long_runs_In (c : Z) (laps : list (Lap float)) (min_laps : option Z)
    (r : LongRun) :
  In r (identify_long_runs c laps min_laps) <->
  exists k g,
    In (k, g) (groupby stint_key StintKey_eq_dec StintKey_leb
                 (filter (fun l => PrimFloat.ltb 0%float (LapTimeSeconds l))
                    (filter (fun l => f64_notna (LapTimeSeconds l)) laps)))
    /\ r = add_cov_range (stint_agg (k, g))
    /\ py_or min_laps c <= StintLaps (stint_agg (k, g)).
Proof.
  unfold identify_long_runs. rewrite in_map_iff. split.
  - intros (s & <- & Hs). apply filter_In in Hs as [Hs Hge].
    apply in_map_iff in Hs as ([k g] & <- & Hg).
    exists k, g. repeat split; auto. lia.
  - intros (k & g & Hg & -> & Hge). exists (stint_agg (k, g)). split; [reflexivity|].
    apply filter_In. split; [|lia]. apply in_map_iff. now exists (k, g).
Qed.

(** The scenario of the specification: at threshold 5 the one stint is
    returned, with StintLaps = 5 and MeanTime = 90.4. *)
Example scenario_long_run :
  map (fun r => (run_key r, StintLaps (run r), MeanTime (run r)))
      (identify_long_runs 8 scenario_laps (Some 5))
  = [(("A", "X", 1, 1)%string, 5, 90.4%float)].
Proof. vm_compute. reflexivity. Qed.

(** C7: a long-run row whose StdTime is NaN, as for a group of a single lap,
    gets CoV = NaN, not 0: the NaN goes through StdTime / MeanTime. *)
Theorem cov_is_nan_when_std_is_nan (c : Z) (laps : list (Lap float))
    (min_laps : option Z) (r : LongRun) :
  In r (identify_long_runs c laps min_laps) ->
  (StintLaps (run r) = 1 -> PrimFloat.is_nan (StdTime (run r)) = true) /\
  (PrimFloat.is_nan (StdTime (run r)) = true ->
   PrimFloat.is_nan (CoV r) = true /\ CoV r <> 0%float).
Proof.
  intros Hr. apply identify_long_runs_In in Hr as (k & g & _ & -> & _).
  destruct k as [[[team driver] day] stint].
  cbn [add_cov_range stint_agg run CoV StdTime MeanTime StintLaps]. split.
  - unfold Agg.count, Agg.std. intros Hn.
    replace (List.length (Agg.dropna (map LapTimeSeconds g))) with 1%nat by lia.
    reflexivity.
  - intros Hnan. assert (Hcov := div_nan_l _ (Agg.mean (map LapTimeSeconds g)) Hnan).
    split; [exact Hcov|]. intros E. rewrite E in Hcov. discriminate Hcov.
Qed.

(** At threshold 1 a lone lap is a long run, and its CoV is NaN. *)
Lemma cov_is_nan_when_std_is_nan_witness :
  let laps := single_lap in
  exists r, In r (identify_long_runs 5 laps (Some 1)) /\
            StintLaps (run r) = 1 /\
            PrimFloat.is_nan (CoV r) = true /\ CoV r <> 0%float.
Proof.
  intros laps.
  assert (H : exists r, In r (identify_long_runs 5 laps (Some 1)) /\
                        StintLaps (run r) = 1).
  { eexists. split; [left; reflexivity | reflexivity]. }
  destruct H as (r & Hin & Hone). exists r.
  destruct (cov_is_nan_when_std_is_nan 5 laps (Some 1) r Hin) as [Hstd Hcov].
  split; [exact Hin|]. split; [exact Hone|]. exact (Hcov (Hstd Hone)).
Defined.

(** C8: [min_laps=0] is falsy, so the configured threshold applies, as when
    no threshold is passed. *)
Theorem min_laps_zero_is_default (c : Z) (laps : list (Lap float)) :
  identify_long_runs c laps (Some 0) = identify_long_runs c laps None.
Proof. reflexivity. Qed.

(** C9: the rows of [compute_consistency_by_team] are ascending in MedianCoV
    (teams whose median is undefined come last). *)
Theorem consistency_sorted_by_median_cov (long_runs : list LongRun) :
  StronglySorted f64_le_nan_last
    (map MedianCoV (compute_consistency_by_team long_runs)).
Proof. apply sort_values_f64_sorted. Qed.

Lemma valid_two_steps (laps : list (Lap float)) :
  filter (fun l => PrimFloat.ltb 0%float (LapTimeSeconds l))
    (filter (fun l => f64_notna (LapTimeSeconds l)) laps)
  = valid_laps laps.
Proof.
  unfold valid_laps, valid_lap. induction laps as [|l t IH]; simpl; [reflexivity|].
  destruct (f64_notna (LapTimeSeconds l)); simpl; [|exact IH].
  destruct (PrimFloat.ltb 0 (LapTimeSeconds l)); now rewrite IH.
Qed.

Lemma valid_laps_idem {T : Type} `{Arith T} (laps : list (Lap T)) :
  valid_laps (valid_laps laps) = valid_laps laps.
Proof.
  unfold valid_laps. induction laps as [|l t IH]; simpl; [reflexivity|].
  destruct (valid_lap l) eqn:E; simpl; [|exact IH]. now rewrite E, IH.
Qed.

Lemma dropna_of_timed (g : list (Lap float)) :
  Forall (fun l => f64_notna (LapTimeSeconds l) = true) g ->
  Agg.dropna (map LapTimeSeconds g) = map LapTimeSeconds g.
Proof.
  induction 1 as [|l t Hl Ht IH]; [reflexivity|].
  unfold Agg.dropna in *. cbn [t_notna Arith_f64] in *. cbn [map filter].
  now rewrite Hl, IH.
Qed.

(** On laps that all have a time, [count] is the number of rows. *)
Lemma count_of_timed (g : list (Lap float)) :
  Forall (fun l => f64_notna (LapTimeSeconds l) = true) g ->
  Agg.count (map LapTimeSeconds g) = Z.of_nat (List.length g).
Proof.
  intros Hg. unfold Agg.count. now rewrite dropna_of_timed, length_map.
Qed.

(** Dropping rows keeps the remaining keys distinct. *)
Lemma distinct_keys_filter {Row Key : Type} (key : Row -> Key) (keep : Row -> bool)
    (table : list Row) (Hdistinct : NoDup (map key table)) :
  NoDup (map key (filter keep table)).
Proof.
  induction table as [|row rest IH]; cbn in *; [constructor|].
  apply NoDup_cons_iff in Hdistinct as [Hfresh Hrest].
  destruct (keep row); cbn; [|now apply IH].
  constructor; [|now apply IH].
  intros Hin. apply Hfresh. apply in_map_iff in Hin as (other & Hkey & Hin).
  apply filter_In in Hin as [Hin _]. apply in_map_iff. now exists other.
Qed.

Lemma run_key_stint_agg (k : StintKey) (g : list (Lap float)) :
  run_key (add_cov_range (stint_agg (k, g))) = k.
Proof. destruct k as [[[team driver] day] stint]. reflexivity. Qed.

Lemma identify_long_runs_keys (c : Z) (laps : list (Lap float)) (min_laps : option Z) :
  map run_key (identify_long_runs c laps min_laps)
  = map fst
      (filter (fun kg => StintLaps (stint_agg kg) >=? py_or min_laps c)
         (groupby stint_key StintKey_eq_dec StintKey_leb (valid_laps laps))).
Proof.
  unfold identify_long_runs. rewrite valid_two_steps, filter_map_swap, !map_map.
  apply map_ext. intros [k g]. apply run_key_stint_agg.
Qed.

(** What [identify_long_runs] returns, whatever the threshold in force: one
    row for each stint of the valid laps that has at least [threshold] of
    them, carrying the aggregates of those laps. *)
Lemma identify_long_runs_spec (c : Z) (laps : list (Lap float)) (min_laps : option Z) :
  let out := identify_long_runs c laps min_laps in
  let valid := valid_laps laps in
  let threshold := py_or min_laps c in
  NoDup (map run_key out) /\
  (forall k, In k (map run_key out) <->
             In k (map stint_key valid) /\
             threshold <= Z.of_nat (List.length (stint_rows k valid))) /\
  (forall r, In r out ->
     let g := stint_rows (run_key r) valid in
     let times := map LapTimeSeconds g in
     StintLaps (run r) = Z.of_nat (List.length g) /\
     threshold <= StintLaps (run r) /\
     s_Compound (run r) = Agg.first (map Compound g) /\
     MeanTime (run r) = Agg.mean times /\
     StdTime (run r) = Agg.std times /\
     MinTime (run r) = Agg.min times /\
     MaxTime (run r) = Agg.max times /\
     CoV r = PrimFloat.div (StdTime (run r)) (MeanTime (run r)) /\
     Range r = PrimFloat.sub (MaxTime (run r)) (MinTime (run r))).
Proof.
  intros out valid threshold.
  assert (Hcount : forall k, StintLaps (stint_agg (k, stint_rows k valid))
                             = Z.of_nat (List.length (stint_rows k valid))).
  { intros [[[team driver] day] stint]. cbn [stint_agg StintLaps].
    apply count_of_timed, Forall_forall. intros l Hl.
    apply filter_In in Hl as [Hl _]. apply filter_In in Hl as [_ Hl].
    unfold valid_lap in Hl. now apply andb_prop in Hl as [Hl _]. }
  split; [|split].
  - unfold out. rewrite identify_long_runs_keys.
    apply distinct_keys_filter. rewrite groupby_keys. apply group_keys_NoDup.
  - intros k. unfold out. rewrite identify_long_runs_keys, in_map_iff. split.
    + intros ([k' g] & Hk & Hin). simpl in Hk. subst k'.
      apply filter_In in Hin as [Hin Hge].
      apply groupby_In in Hin as [Hin ->]. split; [exact Hin|].
      fold valid in Hge. change (filter _ valid) with (stint_rows k valid) in Hge.
      rewrite Hcount in Hge. unfold threshold. lia.
    + intros [Hin Hge]. exists (k, stint_rows k valid). split; [reflexivity|].
      apply filter_In. split.
      * apply groupby_In. split; [exact Hin | reflexivity].
      * rewrite Hcount. unfold threshold in Hge. lia.
  - intros r Hr g times. apply identify_long_runs_In in Hr as (k & g' & Hg & -> & Hge).
    rewrite valid_two_steps in Hg. apply groupby_In in Hg as [_ ->].
    fold valid in Hge |- *. change (filter _ valid) with (stint_rows k valid) in Hge |- *.
    unfold g, times. rewrite run_key_stint_agg. cbn [run add_cov_range CoV Range].
    rewrite Hcount in Hge. split; [apply Hcount|]. split; [now rewrite Hcount|].
    destruct k as [[[team driver] day] stint]. repeat split.
Qed.

(** C3 (amended): for every threshold N other than 0 passed as min_laps,
    [identify_long_runs] drops the null and non-positive lap times, groups
    the rest by (Team, Driver, Day, Stint) and returns one row for exactly
    the groups with at least N valid laps: StintLaps is that count,
    Compound the first non-null Compound of the group, CoV = StdTime/MeanTime
    and Range = MaxTime - MinTime. *)
Theorem long_runs_are_the_stints_at_threshold (c N : Z) (laps : list (Lap float)) :
  N <> 0 ->
  let out := identify_long_runs c laps (Some N) in
  let valid := valid_laps laps in
  NoDup (map run_key out) /\
  returns_stints_at_least c laps N /\
  (forall r, In r out ->
     let g := stint_rows (run_key r) valid in
     let times := map LapTimeSeconds g in
     StintLaps (run r) = Z.of_nat (List.length g) /\
     N <= StintLaps (run r) /\
     s_Compound (run r) = Agg.first (map Compound g) /\
     MeanTime (run r) = Agg.mean times /\
     StdTime (run r) = Agg.std times /\
     MinTime (run r) = Agg.min times /\
     MaxTime (run r) = Agg.max times /\
     CoV r = PrimFloat.div (StdTime (run r)) (MeanTime (run r)) /\
     Range r = PrimFloat.sub (MaxTime (run r)) (MinTime (run r))).
Proof.
  intros HN. pose proof (identify_long_runs_spec c laps (Some N)) as Hspec.
  assert (Hthr : py_or (Some N) c = N).
  { unfold py_or. destruct (Z.eqb_spec N 0); [contradiction | reflexivity]. }
  cbv zeta in Hspec. rewrite Hthr in Hspec. exact Hspec.
Qed.

(** The scenario of the specification at threshold 5: the one stint is
    returned, with its five laps. *)
Lemma long_runs_are_the_stints_at_threshold_witness :
  5 <> 0 /\
  forall r, In r (identify_long_runs 8 scenario_laps (Some 5)) ->
            StintLaps (run r) = 5 /\ 5 <= StintLaps (run r).
Proof.
  assert (H5 : 5 <> 0) by lia.
  split; [exact H5|]. intros r Hr.
  destruct (long_runs_are_the_stints_at_threshold 8 5 scenario_laps H5) as (_ & _ & H).
  destruct (H r Hr) as (Hn & Hge & _). split; [|exact Hge].
  rewrite Hn. destruct Hr as [<- | []]. reflexivity.
Defined.

(** With the threshold 0 the configured constant decides, so a stint with
    fewer laps than the constant is dropped although it has at least 0
    laps; this for every configured constant from 2 on. *)
Lemma threshold_zero_drops_short_stints (c : Z) :
  2 <= c -> ~ returns_stints_at_least c single_lap 0.
Proof.
  intros Hc Hclaim. destruct (Hclaim ("A", "X", 1, 1)%string) as [_ Hback].
  assert (Hout : identify_long_runs c single_lap (Some 0) = []).
  { unfold identify_long_runs. cbn [py_or Z.eqb].
    change (groupby stint_key StintKey_eq_dec StintKey_leb _)
      with [(("A", "X", 1, 1)%string, single_lap)].
    cbn [map filter stint_agg StintLaps].
    change (Agg.count (map LapTimeSeconds single_lap)) with 1.
    destruct (Z.geb_spec 1 c); [lia | reflexivity]. }
  rewrite Hout in Hback. apply Hback. split.
  - left. reflexivity.
  - vm_compute. discriminate.
Qed.

(** C3, as stated, fails: at [min_laps = 0] (configured constant 5) the
    two-lap stint is not returned though it has at least 0 valid laps; and
    the Compound of a long run is the first non-null one, not that of the
    group's first lap. *)
Lemma long_runs_claim_counterexample :
  ~ returns_stints_at_least 5 late_compound_laps 0 /\
  ~ compound_of_first_lap 5 late_compound_laps 2.
Proof.
  split.
  - intros Hclaim. destruct (Hclaim ("A", "X", 1, 1)%string) as [_ Hback].
    apply Hback. split; [left; reflexivity | vm_compute; discriminate].
  - intros Hclaim.
    specialize (Hclaim (add_cov_range (stint_agg (("A", "X", 1, 1)%string, late_compound_laps)))).
    assert (Hin : In (add_cov_range (stint_agg (("A", "X", 1, 1)%string, late_compound_laps)))
                     (identify_long_runs 5 late_compound_laps (Some 2))).
    { left. reflexivity. }
    apply Hclaim in Hin. vm_compute in Hin. discriminate Hin.
Qed.

(** ** [compute_team_stats] and the lap counts *)

Import Distributions Reliability.

Lemma sort_values_f64_In {R : Type} (col : R -> float) (x : R) (rows : list R) :
  In x (sort_values_f64 col rows) <-> In x rows.
Proof.
  split; apply Permutation_in; [|symmetry]; apply sort_values_f64_perm.
Qed.

Lemma compute_team_stats_In (laps : list (Lap float)) (s : TeamStats) :
  In s (compute_team_stats laps) <->
  exists team, In team (map Team laps) /\
               s = add_headline_gap (team_agg (team, team_rows team laps)).
Proof.
  unfold compute_team_stats.
  rewrite sort_values_f64_In, map_map, in_map_iff.
  split.
  - intros ([team g] & <- & Hg). apply groupby_In in Hg as [Hin ->]. now exists team.
  - intros (team & Hin & ->). exists (team, team_rows team laps).
    split; [reflexivity|]. apply groupby_In. now split.
Qed.

Lemma compute_total_laps_In {T : Type} (laps : list (Lap T)) (t : TeamTotal) :
  In t (compute_total_laps laps) <->
  exists team, In team (map Team laps) /\
               t = {| t_Team := team;
                      TotalLaps := Z.of_nat (List.length (team_rows team laps)) |}.
Proof.
  unfold compute_total_laps. rewrite sort_by_In, in_map_iff. split.
  - intros ([team g] & <- & Hg). apply groupby_In in Hg as [Hin ->]. now exists team.
  - intros (team & Hin & ->). exists (team, team_rows team laps).
    split; [reflexivity|]. apply groupby_In. now split.
Qed.

Lemma dropna_idem (l : list float) : Agg.dropna (Agg.dropna l) = Agg.dropna l.
Proof.
  unfold Agg.dropna. cbn [t_notna Arith_f64].
  induction l as [|x t IH]; cbn [filter]; [reflexivity|].
  destruct (f64_notna x) eqn:E; cbn [filter]; [|exact IH]. now rewrite E, IH.
Qed.

Lemma dropna_timed_rows (g : list (Lap float)) :
  map LapTimeSeconds (filter (fun l => f64_notna (LapTimeSeconds l)) g)
  = Agg.dropna (map LapTimeSeconds g).
Proof. unfold Agg.dropna. cbn [t_notna Arith_f64]. now rewrite filter_map_swap. Qed.

(** The statistics of a team do not see its laps without a time. *)
Lemma team_agg_ignores_null (team : string) (g : list (Lap float)) :
  team_agg (team, filter (fun l => f64_notna (LapTimeSeconds l)) g) = team_agg (team, g).
Proof.
  unfold team_agg. rewrite dropna_timed_rows.
  unfold Agg.min, Agg.max, Agg.median, Agg.mean, Agg.std, Agg.count.
  now rewrite !dropna_idem.
Qed.

Lemma compute_team_stats_teams (laps : list (Lap float)) :
  Permutation (map (fun s => a_Team (agg s)) (compute_team_stats laps))
              (nodup string_dec (map Team laps)).
Proof.
  unfold compute_team_stats.
  rewrite (Permutation_map _ (sort_values_f64_perm _ _)), !map_map.
  rewrite <- (group_keys_perm Team string_dec String.leb laps), <- groupby_keys.
  apply Permutation_refl'. apply map_ext. now intros [team g].
Qed.

(** The teams listed by [compute_total_laps] are the teams of the table. *)
Lemma compute_total_laps_teams {T : Type} (laps : list (Lap T)) :
  Permutation (map t_Team (compute_total_laps laps))
              (nodup string_dec (map Team laps)).
Proof.
  unfold compute_total_laps.
  rewrite (Permutation_map t_Team (sort_by_perm _ _)), map_map. cbn [t_Team].
  change (map (fun g => fst g) ?l) with (map fst l).
  rewrite groupby_keys. apply group_keys_perm.
Qed.

(** C1 (amended): [identify_long_runs] restricts the rows to the lap times
    that are non-null and > 0 before it aggregates: it returns one row for
    exactly the stints of those laps that reach the threshold, and StintLaps
    and the other aggregates are taken over those laps only.
    [compute_team_stats] does not filter: it lists every team of the table,
    once, also a team without any lap time (count 0); its statistics are
    those of the team's laps with a non-null time, positive or not, and the
    count is their number.  [compute_total_laps] lists every team of the
    table, once, and counts every row of the team. *)
Theorem lap_time_filter_by_function (c : Z) (min_laps : option Z)
    (laps : list (Lap float)) :
  let long_runs := identify_long_runs c laps min_laps in
  let stats := compute_team_stats laps in
  let totals := compute_total_laps laps in
  let timed team :=
    filter (fun l => f64_notna (LapTimeSeconds l)) (team_rows team laps) in
  (* identify_long_runs *)
  (aggregates_valid_laps_only (fun t => identify_long_runs c t min_laps) /\
   NoDup (map run_key long_runs) /\
   (forall k, In k (map run_key long_runs) <->
              In k (map stint_key (valid_laps laps)) /\
              py_or min_laps c
              <= Z.of_nat (List.length (stint_rows k (valid_laps laps)))) /\
   Forall (fun r =>
             let g := stint_rows (run_key r) (valid_laps laps) in
             StintLaps (run r) = Z.of_nat (List.length g) /\
             MeanTime (run r) = Agg.mean (map LapTimeSeconds g) /\
             StdTime (run r) = Agg.std (map LapTimeSeconds g) /\
             MinTime (run r) = Agg.min (map LapTimeSeconds g) /\
             MaxTime (run r) = Agg.max (map LapTimeSeconds g))
          long_runs) /\
  (* compute_team_stats *)
  (Permutation (map (fun s => a_Team (agg s)) stats)
               (nodup string_dec (map Team laps)) /\
   (forall team, In team (map Team laps) ->
      In (add_headline_gap (team_agg (team, timed team))) stats) /\
   (forall team, In team (map Team laps) -> timed team = [] ->
      exists s, In s stats /\ a_Team (agg s) = team /\ a_count (agg s) = 0) /\
   Forall (fun s =>
             agg s = team_agg (a_Team (agg s), timed (a_Team (agg s))) /\
             a_count (agg s) = Z.of_nat (List.length (timed (a_Team (agg s)))))
          stats) /\
  (* compute_total_laps *)
  (Permutation (map t_Team totals) (nodup string_dec (map Team laps)) /\
   Forall (fun t => TotalLaps t = Z.of_nat (List.length (team_rows (t_Team t) laps)))
          totals).
Proof.
  intros long_runs stats totals timed.
  assert (Hrow : forall team,
             In team (map Team laps) ->
             In (add_headline_gap (team_agg (team, timed team))) stats).
  { intros team Hteam. apply compute_team_stats_In. exists team.
    split; [exact Hteam|]. unfold timed. now rewrite team_agg_ignores_null. }
  assert (Hcount : forall team,
             a_count (team_agg (team, timed team))
             = Z.of_nat (List.length (timed team))).
  { intros team. unfold timed. rewrite team_agg_ignores_null.
    cbn [team_agg a_count]. unfold Agg.count.
    now rewrite <- dropna_timed_rows, length_map. }
  split; [|split].
  - destruct (identify_long_runs_spec c laps min_laps) as (Hnd & Hkeys & Hrows).
    split; [|split; [exact Hnd | split; [exact Hkeys|]]].
    + intros t. unfold identify_long_runs.
      now rewrite !valid_two_steps, valid_laps_idem.
    + apply Forall_forall. intros r Hr.
      destruct (Hrows r Hr) as (Hn & _ & _ & Hmean & Hstd & Hmin & Hmax & _).
      cbv zeta. repeat split; assumption.
  - split; [apply compute_team_stats_teams|]. split; [exact Hrow|]. split.
    + intros team Hteam Hnone. exists (add_headline_gap (team_agg (team, timed team))).
      split; [now apply Hrow|]. split; [reflexivity|].
      cbn [agg add_headline_gap]. now rewrite Hcount, Hnone.
    + apply Forall_forall. intros s Hs.
      apply compute_team_stats_In in Hs as (team & _ & ->).
      cbn [agg add_headline_gap].
      replace (a_Team (team_agg (team, team_rows team laps))) with team by reflexivity.
      split; [unfold timed; now rewrite team_agg_ignores_null|].
      rewrite <- Hcount. unfold timed. now rewrite team_agg_ignores_null.
  - split; [apply compute_total_laps_teams|].
    apply Forall_forall. intros t Ht.
    apply compute_total_laps_In in Ht as (team & _ & ->). reflexivity.
Qed.

(** C1, as stated, fails on [untimed_laps]: [compute_team_stats] counts the
    lap timed 0 for team A and lists team B, and [compute_total_laps] counts
    the laps without a valid time; neither result is that of the valid
    laps. *)
Lemma lap_time_filter_counterexample :
  map (fun s => (a_Team (agg s), a_count (agg s), a_min (agg s)))
      (compute_team_stats untimed_laps)
  = [("A"%string, 2, 0%float); ("B"%string, 0, PrimFloat.nan)] /\
  map (fun t => (t_Team t, TotalLaps t)) (compute_total_laps untimed_laps)
  = [("A"%string, 2); ("B"%string, 1)] /\
  compute_team_stats untimed_laps <> compute_team_stats (valid_laps untimed_laps) /\
  compute_total_laps untimed_laps <> compute_total_laps (valid_laps untimed_laps) /\
  ~ aggregates_valid_laps_only compute_team_stats /\
  ~ aggregates_valid_laps_only (@compute_total_laps float).
Proof.
  assert (H1 : compute_team_stats untimed_laps
               <> compute_team_stats (valid_laps untimed_laps)).
  { intros E. apply (f_equal (@List.length _)) in E. vm_compute in E. discriminate E. }
  assert (H2 : compute_total_laps untimed_laps
               <> compute_total_laps (valid_laps untimed_laps)).
  { intros E. apply (f_equal (@List.length _)) in E. vm_compute in E. discriminate E. }
  split; [vm_compute; reflexivity|]. split; [vm_compute; reflexivity|].
  split; [exact H1|]. split; [exact H2|].
  split; intros Hclaim; [apply H1 | apply H2]; apply Hclaim.
Qed.

(** C2 (amended): [compute_team_stats] returns exactly one row per distinct
    team of the table, whether the team has a valid lap or not; the rows are
    ascending in the median lap time, and a team without any non-null lap
    time has count 0 and median NaN, so it comes last. *)
Theorem team_stats_one_row_per_team (laps : list (Lap float)) :
  let out := compute_team_stats laps in
  Permutation (map (fun s => a_Team (agg s)) out) (nodup string_dec (map Team laps)) /\
  NoDup (map (fun s => a_Team (agg s)) out) /\
  StronglySorted f64_le_nan_last (map (fun s => a_median (agg s)) out) /\
  Forall (fun s => a_count (agg s) = 0 ->
                   PrimFloat.is_nan (a_median (agg s)) = true) out.
Proof.
  intros out. split; [|split; [|split]].
  - apply compute_team_stats_teams.
  - apply (Permutation_NoDup (l := nodup string_dec (map Team laps))).
    + symmetry. apply compute_team_stats_teams.
    + apply NoDup_nodup.
  - apply sort_values_f64_sorted.
  - apply Forall_forall. intros s Hs.
    apply compute_team_stats_In in Hs as (team & _ & ->).
    cbn [agg add_headline_gap team_agg a_count a_median].
    unfold Agg.count, Agg.median. intros Hn.
    destruct (Agg.dropna (map LapTimeSeconds (team_rows team laps)));
      [reflexivity | discriminate Hn].
Qed.

(** C2, as stated, fails on [untimed_laps]: team B has no valid lap and yet
    has a row, so the rows are not those of the teams with a valid lap. *)
Lemma team_stats_counterexample :
  map (fun s => a_Team (agg s)) (compute_team_stats untimed_laps)
  = ["A"; "B"]%string /\
  nodup string_dec (map Team (valid_laps untimed_laps)) = ["A"%string] /\
  ~ one_row_per_team_with_valid_lap untimed_laps.
Proof.
  split; [vm_compute; reflexivity|]. split; [vm_compute; reflexivity|].
  intros Hclaim. apply Permutation_length in Hclaim.
  vm_compute in Hclaim. discriminate Hclaim.
Qed.

(** ** [compute_laps_per_team_day] *)

Section PivotFacts.
Context {T : Type}.
Implicit Types laps : list (Lap T).

Lemma team_day_sizes_In laps (e : (string * Z) * Z) :
  In e (team_day_sizes laps) <->
  In (fst e) (map (fun l : Lap T => (Team l, Day l)) laps) /\
  snd e = Z.of_nat (List.length (laps_on (fst (fst e)) (snd (fst e)) laps)).
Proof.
  unfold team_day_sizes. rewrite in_map_iff. split.
  - intros ([k g] & <- & Hg). apply groupby_In in Hg as [Hin ->].
    destruct k as [team day]. now split.
  - intros [Hin Hn]. destruct e as [[team day] n]. simpl in *. subst n.
    exists ((team, day), laps_on team day laps). split; [reflexivity|].
    apply groupby_In. now split.
Qed.

(** A cell holds the number of laps of its team on its day; a pair without
    laps has no entry in the long table, and the fill value 0 is that
    number too. *)
Lemma filled_cell laps (team : string) (day : Z) :
  match lookup_cell (team_day_sizes laps) team day with
  | Some n => n
  | None => 0
  end = Z.of_nat (List.length (laps_on team day laps)).
Proof.
  unfold lookup_cell.
  destruct (find _ (team_day_sizes laps)) as [e|] eqn:E.
  - apply find_some in E as [Hin Hk].
    destruct (TeamDay_eq_dec (fst e) (team, day)) as [Hfst|]; [|discriminate].
    apply team_day_sizes_In in Hin as [_ ->]. now rewrite Hfst.
  - destruct (laps_on team day laps) as [|l t] eqn:El; [reflexivity|].
    assert (Hl : In l (laps_on team day laps)) by (rewrite El; now left).
    apply filter_In in Hl as [Hl Hk]. apply has_key_true in Hk.
    pose proof (find_none _ _ E
                  ((team, day), Z.of_nat (List.length (laps_on team day laps)))) as Hnone.
    cbn [fst] in Hnone.
    destruct (TeamDay_eq_dec (team, day) (team, day)); [|contradiction].
    assert (Habs : true = false); [|discriminate Habs]. apply Hnone.
    apply team_day_sizes_In. cbn [fst snd]. split; [|reflexivity].
    apply in_map_iff. exists l. now split.
Qed.

Lemma sizes_teams laps (team : string) :
  In team (map (fun e => fst (fst e)) (team_day_sizes laps)) <-> In team (map Team laps).
Proof.
  rewrite !in_map_iff. split.
  - intros (e & <- & He). apply team_day_sizes_In in He as [He _].
    apply in_map_iff in He as (l & Hl & Hin). exists l. split; [|exact Hin].
    now rewrite <- Hl.
  - intros (l & <- & Hin).
    exists ((Team l, Day l), Z.of_nat (List.length (laps_on (Team l) (Day l) laps))).
    split; [reflexivity|]. apply team_day_sizes_In. split; [|reflexivity].
    apply in_map_iff. now exists l.
Qed.

Lemma sizes_days laps (day : Z) :
  In day (map (fun e => snd (fst e)) (team_day_sizes laps)) <-> In day (map Day laps).
Proof.
  rewrite !in_map_iff. split.
  - intros (e & <- & He). apply team_day_sizes_In in He as [He _].
    apply in_map_iff in He as (l & Hl & Hin). exists l. split; [|exact Hin].
    now rewrite <- Hl.
  - intros (l & <- & Hin).
    exists ((Team l, Day l), Z.of_nat (List.length (laps_on (Team l) (Day l) laps))).
    split; [reflexivity|]. apply team_day_sizes_In. split; [|reflexivity].
    apply in_map_iff. now exists l.
Qed.

(** C10: the pivot of [compute_laps_per_team_day] has a cell for every team
    of its index and every day of its columns; the cell is the number of
    laps of that team on that day, so 0 where the pair has none, and every
    cell is a non-negative integer. *)
Theorem laps_per_team_day_is_total laps :
  let p := compute_laps_per_team_day laps in
  List.length (cells p) = List.length (index p) /\
  Forall (fun row => List.length row = List.length (day_columns p)) (cells p) /\
  Forall (Forall (fun v => 0 <= v)) (cells p) /\
  cells p = map (fun team =>
                   map (fun day => Z.of_nat (List.length (laps_on team day laps)))
                       (day_columns p))
                (index p) /\
  NoDup (index p) /\ (forall team, In team (index p) <-> In team (map Team laps)) /\
  NoDup (day_columns p) /\ (forall day, In day (day_columns p) <-> In day (map Day laps)).
Proof.
  intros p.
  assert (Hcells : cells p
                   = map (fun team =>
                            map (fun day => Z.of_nat (List.length (laps_on team day laps)))
                                (day_columns p))
                         (index p)).
  { unfold p, compute_laps_per_team_day, astype_int, fillna, pivot.
    cbn [cells index day_columns]. rewrite map_map.
    apply map_ext. intros team. rewrite map_map.
    apply map_ext. intros day. apply filled_cell. }
  split; [|split; [|split; [|split; [exact Hcells|]]]].
  - now rewrite Hcells, length_map.
  - rewrite Hcells. apply Forall_forall. intros row Hrow.
    apply in_map_iff in Hrow as (team & <- & _). apply length_map.
  - rewrite Hcells. apply Forall_forall. intros row Hrow.
    apply in_map_iff in Hrow as (team & <- & _).
    apply Forall_forall. intros v Hv. apply in_map_iff in Hv as (day & <- & _). lia.
  - unfold p, compute_laps_per_team_day, astype_int, fillna, pivot.
    cbn [index day_columns]. repeat split.
    + apply sort_by_NoDup, NoDup_nodup.
    + rewrite sort_by_In, nodup_In. apply sizes_teams.
    + intros H. apply sort_by_In, nodup_In. now apply sizes_teams.
    + apply sort_by_NoDup, NoDup_nodup.
    + rewrite sort_by_In, nodup_In. apply sizes_days.
    + intros H. apply sort_by_In, nodup_In. now apply sizes_days.
Qed.
End PivotFacts.

(** ** [get_long_run_laps] *)

Lemma py_range_from_one (n : nat) :
  py_range 1 (Z.of_nat n + 1) = map Z.of_nat (seq 1 n).
Proof.
  unfold py_range. replace (Z.to_nat (Z.of_nat n + 1 - 1)) with n by lia.
  rewrite <- seq_shift, map_map. apply map_ext. intros i. lia.
Qed.

(** Zipping two columns of equal length loses neither. *)
Lemma unzip_combine {X Y : Type} (xs : list X) (ys : list Y) :
  List.length xs = List.length ys ->
  map fst (combine xs ys) = xs /\ map snd (combine xs ys) = ys.
Proof.
  revert ys. induction xs as [|x xs IH]; intros [|y ys] E; cbn in E; try discriminate.
  - now split.
  - injection E as E. destruct (IH ys E) as [Hfst Hsnd]. cbn. now rewrite Hfst, Hsnd.
Qed.

Lemma filter_all {A : Type} (p : A -> bool) (l : list A) :
  (forall x, In x l -> p x = true) -> filter p l = l.
Proof.
  induction l as [|x t IH]; intros Hp; simpl; [reflexivity|].
  rewrite (Hp x (or_introl eq_refl)). f_equal. apply IH. intros y Hy. apply Hp. now right.
Qed.

Lemma filter_none {A : Type} (p : A -> bool) (l : list A) :
  (forall x, In x l -> p x = false) -> filter p l = [].
Proof.
  induction l as [|x t IH]; intros Hp; simpl; [reflexivity|].
  rewrite (Hp x (or_introl eq_refl)). apply IH. intros y Hy. apply Hp. now right.
Qed.

Section TraceFacts.
Context {T : Type} `{Arith T}.
Implicit Types (laps : list (Lap T)) (r : LongRun).

Lemma stint_trace_laps laps r : map lap (stint_trace laps r) = ordered_stint_laps laps r.
Proof.
  unfold stint_trace. rewrite map_map. cbn [lap].
  apply unzip_combine.
  now rewrite py_range_from_one, length_map, length_seq.
Qed.

Lemma stint_trace_length laps r :
  List.length (stint_trace laps r) = List.length (ordered_stint_laps laps r).
Proof. now rewrite <- stint_trace_laps, length_map. Qed.

Lemma stint_trace_numbers laps r :
  map StintLapNumber (stint_trace laps r)
  = map Z.of_nat (seq 1 (List.length (stint_trace laps r))).
Proof.
  rewrite stint_trace_length. unfold stint_trace. rewrite map_map. cbn [StintLapNumber].
  fold (ordered_stint_laps laps r). rewrite py_range_from_one.
  apply unzip_combine. now rewrite length_map, length_seq.
Qed.


Lemma stint_trace_sorted laps r :
  StronglySorted Z.le (map (fun t => LapNumber (lap t)) (stint_trace laps r)).
Proof.
  rewrite <- map_map, stint_trace_laps. apply StronglySorted_map.
  apply (StronglySorted_weaken (fun _ => True)
           (fun a b => (LapNumber a <=? LapNumber b) = true)).
  - intros a b _ _ Hab. now apply Z.leb_le.
  - apply Forall_forall. auto.
  - apply (sort_by_sorted _ (fun _ => True)).
    + intros a b _ _ Hab. apply Z.leb_le. apply Z.leb_gt in Hab. lia.
    + intros a b c _ _ _ Hab Hbc. apply Z.leb_le. apply Z.leb_le in Hab, Hbc. lia.
    + apply Forall_forall. auto.
Qed.

Lemma stint_mask_key r (l : Lap T) : stint_mask r l = true -> stint_key l = run_key r.
Proof.
  unfold stint_mask, stint_key, run_key. intros Hm.
  repeat (apply andb_prop in Hm as [Hm ?]).
  repeat f_equal; try (now apply String.eqb_eq); now apply Z.eqb_eq.
Qed.

Lemma stint_mask_same_key r r' :
  run_key r = run_key r' -> forall l : Lap T, stint_mask r l = stint_mask r' l.
Proof.
  unfold run_key, stint_mask. intros E l. inversion E as [[E1 E2 E3 E4]].
  now rewrite E1, E2, E3, E4.
Qed.

Lemma stint_trace_key laps r (t : TraceLap T) :
  In t (stint_trace laps r) -> stint_key (lap t) = run_key r.
Proof.
  intros Ht. apply (in_map lap) in Ht. rewrite stint_trace_laps in Ht.
  apply sort_by_In in Ht. apply filter_In in Ht as [_ Hm]. now apply stint_mask_key.
Qed.

Lemma get_long_run_laps_rows laps (long_runs : list LongRun) :
  rows (get_long_run_laps laps long_runs) = List.concat (map (stint_trace laps) long_runs).
Proof. unfold get_long_run_laps. now destruct long_runs. Qed.

(** When the long-run table names each stint once, the rows of a stint in
    the result are those selected for it. *)
Lemma stint_group_trace laps (long_runs : list LongRun) r :
  NoDup (map run_key long_runs) -> In r long_runs ->
  stint_group (run_key r) (get_long_run_laps laps long_runs) = stint_trace laps r.
Proof.
  unfold stint_group. rewrite get_long_run_laps_rows.
  induction long_runs as [|r' rest IH]; intros Hnd Hin; [destruct Hin|].
  cbn [map List.concat]. rewrite filter_app.
  inversion Hnd as [|? ? Hfresh Hrest]; subst.
  destruct (StintKey_eq_dec (run_key r') (run_key r)) as [E|NE].
  - rewrite filter_all, filter_none.
    + rewrite app_nil_r. unfold stint_trace.
      rewrite (filter_ext _ _ (stint_mask_same_key r' r E)). reflexivity.
    + intros t Ht. apply in_concat in Ht as (block & Hblock & Ht).
      apply in_map_iff in Hblock as (r'' & <- & Hr'').
      apply stint_trace_key in Ht. unfold has_key.
      destruct (StintKey_eq_dec (stint_key (lap t)) (run_key r)) as [E'|]; [|reflexivity].
      exfalso. apply Hfresh. rewrite E, <- E', Ht. now apply in_map.
    + intros t Ht. apply has_key_true. apply stint_trace_key in Ht. congruence.
  - rewrite filter_none.
    + apply IH; [exact Hrest|]. destruct Hin as [->|Hin]; [contradiction | exact Hin].
    + intros t Ht. apply stint_trace_key in Ht. unfold has_key.
      destruct (StintKey_eq_dec (stint_key (lap t)) (run_key r)); [congruence | reflexivity].
Qed.

(** C5: with an empty long-run table [get_long_run_laps] returns the frame
    without rows and without columns; otherwise its rows are, stint after
    stint, the selected laps of each stint in the order of their LapNumber,
    with StintLapNumber 1, 2, ..., n within the stint. *)
Theorem long_run_laps_numbered laps (long_runs : list LongRun) :
  get_long_run_laps laps [] = mkFrame [] [] /\
  rows (get_long_run_laps laps long_runs)
    = List.concat (map (stint_trace laps) long_runs) /\
  (forall r,
     let block := stint_trace laps r in
     Permutation (map lap block) (filter (stint_mask r) laps) /\
     StronglySorted Z.le (map (fun t => LapNumber (lap t)) block) /\
     map StintLapNumber block = map Z.of_nat (seq 1 (List.length block))) /\
  (NoDup (map run_key long_runs) ->
   forall r, In r long_runs ->
     let group := stint_group (run_key r) (get_long_run_laps laps long_runs) in
     group = stint_trace laps r /\
     StronglySorted Z.le (map (fun t => LapNumber (lap t)) group) /\
     map StintLapNumber group = map Z.of_nat (seq 1 (List.length group))).
Proof.
  split; [reflexivity|]. split; [apply get_long_run_laps_rows|]. split.
  - intros r block. split; [|split].
    + unfold block. rewrite stint_trace_laps. apply sort_by_perm.
    + apply stint_trace_sorted.
    + apply stint_trace_numbers.
  - intros Hnd r Hr group. unfold group. rewrite (stint_group_trace _ _ _ Hnd Hr).
    split; [reflexivity|]. split; [apply stint_trace_sorted | apply stint_trace_numbers].
Qed.
End TraceFacts.

(** The scenario: the stint's five laps come back numbered 1 to 5. *)
Lemma long_run_laps_numbered_witness :
  let long_runs := identify_long_runs 8 scenario_laps (Some 5) in
  NoDup (map run_key long_runs) /\
  exists r, In r long_runs /\
    map StintLapNumber (stint_group (run_key r) (get_long_run_laps scenario_laps long_runs))
    = [1; 2; 3; 4; 5].
Proof.
  intros long_runs.
  assert (Hnd : NoDup (map run_key long_runs)).
  { vm_compute. constructor; [intros [] | constructor]. }
  split; [exact Hnd|].
  assert (Hr : exists r, In r long_runs) by (eexists; left; reflexivity).
  destruct Hr as (r & Hr). exists r. split; [exact Hr|].
  destruct (long_run_laps_numbered scenario_laps long_runs) as (_ & _ & _ & Hgroup).
  destruct (Hgroup Hnd r Hr) as (Heq & _ & Hnum).
  rewrite Hnum, Heq. destruct Hr as [<- | []]. reflexivity.
Defined.

(** ** Centring on the stint mean *)











(** ** Renderers on empty input *)

Lemma unique_In {A : Type} (A_eq_dec : forall a b : A, {a = b} + {a <> b})
    (x : A) (l : list A) :
  In x (unique A_eq_dec l) <-> In x l.
Proof.
  induction l as [|y t IH]; simpl; [tauto|].
  rewrite filter_In, IH. destruct (A_eq_dec y x) as [E|NE].
  - subst. split; auto.
  - split; [intros [E | [Hin _]]; auto | intros [E | Hin]; [contradiction | auto]].
Qed.

Lemma somes_all_null {A : Type} (l : list (option A)) :
  (forall o, In o l -> o = None) -> Agg.somes l = [].
Proof.
  induction l as [|o t IH]; intros Hnull; simpl; [reflexivity|].
  rewrite (Hnull o (or_introl eq_refl)). apply IH. intros o' Ho'. apply Hnull. now right.
Qed.

(** The consistency table is empty exactly when there is no long run. *)
Lemma consistency_empty_iff (long_runs : list LongRun) :
  compute_consistency_by_team long_runs = [] <-> long_runs = [].
Proof.
  split; [|now intros ->].
  unfold compute_consistency_by_team. intros Hnil.
  pose proof (sort_values_f64_perm MedianCoV
                (map consistency_agg
                   (groupby (fun r => s_Team (run r)) string_dec String.leb long_runs)))
    as Hperm.
  rewrite Hnil in Hperm. apply Permutation_nil, map_eq_nil in Hperm.
  now apply groupby_nil in Hperm.
Qed.

Section RenderersOnEmpty.
Variable LONG_RUN_MIN_LAPS : Z.
Variable build_color_maps :
  list (Lap float) -> (string -> option string) * (string -> option string).
Variable get_compound_color : string -> string.
Variable TEAM_COLORS : string -> option string.
Variable FALLBACK_COLOR : string.

Lemma traces_none_when_empty (laps : list (Lap float)) (long_runs : list LongRun) :
  df_empty (get_long_run_laps laps long_runs) = true ->
  plot_long_run_traces LONG_RUN_MIN_LAPS build_color_maps laps long_runs = Returns None.
Proof.
  intros Hempty. unfold plot_long_run_traces.
  destruct (build_color_maps laps) as [team_colors driver_colors].
  now rewrite Hempty.
Qed.

Lemma by_compound_none_when_empty (laps : list (Lap float)) (long_runs : list LongRun) :
  df_empty (get_long_run_laps laps long_runs) = true ->
  plot_long_runs_by_compound LONG_RUN_MIN_LAPS build_color_maps get_compound_color laps long_runs
  = Returns None.
Proof.
  intros Hempty. unfold plot_long_runs_by_compound.
  destruct (build_color_maps laps) as [team_colors driver_colors].
  now rewrite Hempty.
Qed.

Lemma compound_distributions_none (laps : list (Lap float)) :
  (forall l, In l laps -> Compound l = None) ->
  Distributions.plot_compound_distributions build_color_maps get_compound_color laps
  = Returns None.
Proof.
  intros Hnull. unfold plot_compound_distributions.
  destruct (build_color_maps laps) as [team_colors driver_colors].
  assert (Hcol : forall o, In o (map Compound laps) -> o = None).
  { intros o Ho. apply in_map_iff in Ho as (l & <- & Hl). now apply Hnull. }
  assert (Habsent : forall c,
             (if in_dec option_string_eq_dec (Some c)
                   (unique option_string_eq_dec (map Compound laps))
              then true else false) = false).
  { intros c. destruct (in_dec _ _ _) as [Hin|]; [|reflexivity].
    apply unique_In, Hcol in Hin. discriminate Hin. }
  cbn [filter]. rewrite !Habsent, (somes_all_null _ Hcol). reflexivity.
Qed.

(** C4: a renderer whose aggregated input is empty returns None and does not
    raise: [plot_long_run_traces] and [plot_long_runs_by_compound] when the
    selection of long-run laps is empty, as it is for an empty [long_runs];
    [plot_consistency_rankings] when the consistency table is empty; and
    [plot_compound_distributions] when no lap has a Compound. *)
Theorem renderers_return_none_on_empty_input (laps : list (Lap float))
    (long_runs : list LongRun) :
  (df_empty (get_long_run_laps laps long_runs) = true ->
   plot_long_run_traces LONG_RUN_MIN_LAPS build_color_maps laps long_runs = Returns None /\
   plot_long_runs_by_compound LONG_RUN_MIN_LAPS build_color_maps get_compound_color laps long_runs
   = Returns None) /\
  (plot_long_run_traces LONG_RUN_MIN_LAPS build_color_maps laps [] = Returns None /\
   plot_long_runs_by_compound LONG_RUN_MIN_LAPS build_color_maps get_compound_color laps []
   = Returns None) /\
  (compute_consistency_by_team long_runs = [] ->
   plot_consistency_rankings TEAM_COLORS FALLBACK_COLOR long_runs = Returns None) /\
  plot_consistency_rankings TEAM_COLORS FALLBACK_COLOR [] = Returns None /\
  ((forall l, In l laps -> Compound l = None) ->
   Distributions.plot_compound_distributions build_color_maps get_compound_color laps
   = Returns None).
Proof.
  split; [|split; [|split; [|split]]].
  - intros Hempty. split;
      [now apply traces_none_when_empty | now apply by_compound_none_when_empty].
  - split; [now apply traces_none_when_empty | now apply by_compound_none_when_empty].
  - intros Hempty. unfold plot_consistency_rankings. now rewrite Hempty.
  - reflexivity.
  - apply compound_distributions_none.
Qed.
End RenderersOnEmpty.

(** One lap without Compound and the threshold 5: no long run, hence no
    figure from any of the four renderers. *)
Lemma renderers_return_none_on_empty_input_witness :
  let laps := no_compound_laps in
  let long_runs := identify_long_runs 5 laps None in
  plot_long_run_traces 5 no_color_maps laps long_runs = Returns None /\
  plot_long_runs_by_compound 5 no_color_maps (fun c => c) laps long_runs = Returns None /\
  plot_consistency_rankings (fun _ => None) "#888888" long_runs = Returns None /\
  Distributions.plot_compound_distributions no_color_maps (fun c => c) laps
  = Returns None.
Proof.
  intros laps long_runs.
  destruct (renderers_return_none_on_empty_input
              5 no_color_maps (fun c => c) (fun _ => None) "#888888" laps long_runs)
    as (Hsel & _ & Hcons & _ & Hcomp).
  assert (Hempty : df_empty (get_long_run_laps laps long_runs) = true) by reflexivity.
  destruct (Hsel Hempty) as [Htr Hbc].
  split; [exact Htr|]. split; [exact Hbc|]. split.
  - apply Hcons. reflexivity.
  - apply Hcomp. intros l [<- | []]. reflexivity.
Defined.

(** * Further properties of the aggregations *)

(** ** Orders of the group keys *)

Lemma ascii_compare_refl (a : ascii) : Ascii.compare a a = Eq.
Proof. unfold Ascii.compare. apply N.compare_refl. Qed.

Lemma ascii_compare_Lt_trans (a b c : ascii) :
  Ascii.compare a b = Lt -> Ascii.compare b c = Lt -> Ascii.compare a c = Lt.
Proof. unfold Ascii.compare. rewrite !N.compare_lt_iff. lia. Qed.

Lemma string_compare_Lt_trans (a b c : string) :
  String.compare a b = Lt -> String.compare b c = Lt -> String.compare a c = Lt.
Proof.
  revert b c. induction a as [|x a IH]; intros [|y b] [|z c]; simpl;
    try discriminate; auto.
  destruct (Ascii.compare x y) eqn:Exy; try discriminate;
    destruct (Ascii.compare y z) eqn:Eyz; try discriminate; intros Hab Hbc.
  - apply Ascii.compare_eq_iff in Exy, Eyz. subst.
    rewrite ascii_compare_refl. now apply (IH b).
  - apply Ascii.compare_eq_iff in Exy. subst. now rewrite Eyz.
  - apply Ascii.compare_eq_iff in Eyz. subst. now rewrite Exy.
  - now rewrite (ascii_compare_Lt_trans x y z).
Qed.

Lemma string_order : order_compare String.compare.
Proof.
  split.
  - apply String.compare_antisym.
  - apply String.compare_eq_iff.
  - apply string_compare_Lt_trans.
Qed.

Lemma Z_order : order_compare Z.compare.
Proof.
  split.
  - intros a b. apply Z.compare_antisym.
  - intros a b. apply Z.compare_eq.
  - intros a b c. rewrite !Z.compare_lt_iff. lia.
Qed.

Lemma order_compare_refl {A : Type} (cmp : A -> A -> comparison) (a : A) :
  order_compare cmp -> cmp a a = Eq.
Proof.
  intros [Hswap _ _]. specialize (Hswap a a). destruct (cmp a a); simpl in Hswap;
    congruence.
Qed.

(** The lexicographic product of two orders. *)
Lemma pair_order {A B : Type} (cA : A -> A -> comparison) (cB : B -> B -> comparison) :
  order_compare cA -> order_compare cB ->
  order_compare (fun a b : A * B => lex (cA (fst a) (fst b)) (cB (snd a) (snd b))).
Proof.
  intros HA HB. split.
  - intros [a1 a2] [b1 b2]. simpl.
    rewrite (cmp_swap _ HA a1 b1), (cmp_swap _ HB a2 b2).
    now destruct (cA b1 a1).
  - intros [a1 a2] [b1 b2]. simpl. destruct (cA a1 b1) eqn:E1; simpl; try discriminate.
    intros E2. apply (cmp_Eq _ HA) in E1. apply (cmp_Eq _ HB) in E2. congruence.
  - intros [a1 a2] [b1 b2] [c1 c2]. simpl.
    destruct (cA a1 b1) eqn:Eab; simpl; try discriminate;
      destruct (cA b1 c1) eqn:Ebc; simpl; try discriminate; intros Hab Hbc.
    + apply (cmp_Eq _ HA) in Eab, Ebc. subst.
      rewrite (order_compare_refl cA c1 HA). simpl. now apply (cmp_Lt_trans _ HB _ b2).
    + apply (cmp_Eq _ HA) in Eab. subst. now rewrite Ebc.
    + apply (cmp_Eq _ HA) in Ebc. subst. now rewrite Eab.
    + now rewrite (cmp_Lt_trans _ HA _ _ _ Eab Ebc).
Qed.

Lemma not_gt_total {A : Type} (cmp : A -> A -> comparison) (a b : A) :
  order_compare cmp -> not_gt (cmp a b) = false -> not_gt (cmp b a) = true.
Proof.
  intros H. rewrite (cmp_swap _ H a b). now destruct (cmp b a).
Qed.

Lemma not_gt_trans {A : Type} (cmp : A -> A -> comparison) (a b c : A) :
  order_compare cmp ->
  not_gt (cmp a b) = true -> not_gt (cmp b c) = true -> not_gt (cmp a c) = true.
Proof.
  intros H. destruct (cmp a b) eqn:Eab; try discriminate;
    destruct (cmp b c) eqn:Ebc; try discriminate; intros _ _.
  - apply (cmp_Eq _ H) in Eab, Ebc. subst. now rewrite (order_compare_refl cmp c H).
  - apply (cmp_Eq _ H) in Eab. subst. now rewrite Ebc.
  - apply (cmp_Eq _ H) in Ebc. subst. now rewrite Eab.
  - now rewrite (cmp_Lt_trans _ H _ _ _ Eab Ebc).
Qed.

(** Sorting by [not_gt] of an order leaves the list ascending. *)
Lemma sort_by_order_sorted {A : Type} (cmp : A -> A -> comparison) (l : list A) :
  order_compare cmp ->
  StronglySorted (fun a b => not_gt (cmp a b) = true)
                 (sort_by (fun a b => not_gt (cmp a b)) l).
Proof.
  intros H. apply (sort_by_sorted _ (fun _ => True)).
  - intros a b _ _. now apply not_gt_total.
  - intros a b c _ _ _. now apply not_gt_trans.
  - apply Forall_forall. auto.
Qed.

Lemma sort_by_Zleb_sorted (l : list Z) : StronglySorted Z.le (sort_by Z.leb l).
Proof.
  apply (StronglySorted_weaken (fun _ => True) (fun a b => (a <=? b) = true)).
  - intros a b _ _. apply Z.leb_le.
  - apply Forall_forall. auto.
  - apply (sort_by_sorted _ (fun _ => True)).
    + intros a b _ _ Hab. apply Z.leb_le. apply Z.leb_gt in Hab. lia.
    + intros a b c _ _ _ Hab Hbc. apply Z.leb_le. apply Z.leb_le in Hab, Hbc. lia.
    + apply Forall_forall. auto.
Qed.

(** Sorting integers in descending order. *)
Lemma sort_by_descending {A : Type} (f : A -> Z) (l : list A) :
  StronglySorted (fun a b => f b <= f a) (sort_by (fun a b => f b <=? f a) l).
Proof.
  apply (StronglySorted_weaken (fun _ => True) (fun a b => (f b <=? f a) = true)).
  - intros a b _ _. apply Z.leb_le.
  - apply Forall_forall. auto.
  - apply (sort_by_sorted _ (fun _ => True)).
    + intros a b _ _ Hab. apply Z.leb_le. apply Z.leb_gt in Hab. lia.
    + intros a b c _ _ _ Hab Hbc. apply Z.leb_le. apply Z.leb_le in Hab, Hbc. lia.
    + apply Forall_forall. auto.
Qed.

(** ** Counting rows by group *)

Lemma total_app (l l' : list Z) : total (l ++ l') = total l + total l'.
Proof. induction l as [|x t IH]; simpl; [reflexivity|]. rewrite IH. lia. Qed.

Lemma total_perm (l l' : list Z) : Permutation l l' -> total l = total l'.
Proof. induction 1; simpl; lia. Qed.

Lemma total_map_add {A : Type} (f g : A -> Z) (l : list A) :
  total (map (fun a => f a + g a) l) = total (map f l) + total (map g l).
Proof. induction l as [|x t IH]; simpl; [reflexivity|]. rewrite IH. lia. Qed.

Lemma total_zeros {A : Type} (l : list A) : total (map (fun _ => 0) l) = 0.
Proof. induction l as [|x t IH]; simpl; [reflexivity | exact IH]. Qed.

Section Counting.
Context {R K : Type}.
Variable key : R -> K.
Variable K_eq_dec : forall a b : K, {a = b} + {a <> b}.

(** Among distinct keys exactly one is the key of a given row. *)
Lemma one_key_matches (ks : list K) (x : K) :
  NoDup ks -> In x ks ->
  total (map (fun k => if K_eq_dec x k then 1 else 0) ks) = 1.
Proof.
  induction 1 as [|k t Hk Hnd IH]; intros Hin; [destruct Hin|]. simpl.
  destruct (K_eq_dec x k) as [E|NE].
  - subst. rewrite (map_ext_in _ (fun _ => 0)); [now rewrite total_zeros|].
    intros k' Hk'. destruct (K_eq_dec k k'); [subst; contradiction | reflexivity].
  - destruct Hin as [E|Hin]; [congruence|]. now rewrite IH.
Qed.

(** The groups under distinct keys that cover the table partition its
    rows. *)
Lemma group_sizes_total (ks : list K) (rows : list R) :
  NoDup ks -> (forall r, In r rows -> In (key r) ks) ->
  total (map (fun k => Z.of_nat (List.length (filter (has_key key K_eq_dec k) rows))) ks)
  = Z.of_nat (List.length rows).
Proof.
  intros Hnd. induction rows as [|r t IH]; intros Hcover.
  - simpl. apply total_zeros.
  - rewrite (map_ext _ (fun k => (if K_eq_dec (key r) k then 1 else 0)
                                 + Z.of_nat (List.length (filter (has_key key K_eq_dec k) t)))).
    + rewrite total_map_add, one_key_matches, IH; auto.
      * simpl List.length. lia.
      * intros r' Hr'. apply Hcover. now right.
      * apply Hcover. now left.
    + intros k. simpl. unfold has_key at 1.
      destruct (K_eq_dec (key r) k); simpl List.length; lia.
Qed.

Lemma groupby_sizes_total (K_leb : K -> K -> bool) (rows : list R) :
  total (map (fun g => Z.of_nat (List.length (snd g))) (groupby key K_eq_dec K_leb rows))
  = Z.of_nat (List.length rows).
Proof.
  unfold groupby. rewrite map_map. cbn [snd].
  apply group_sizes_total; [apply group_keys_NoDup|].
  intros r Hr. apply group_keys_In. now apply in_map.
Qed.

(** No group is empty. *)
Lemma groupby_group_has_row (K_leb : K -> K -> bool) (rows : list R)
    (g : K * list R) :
  In g (groupby key K_eq_dec K_leb rows) -> (1 <= List.length (snd g))%nat.
Proof.
  destruct g as [k g]. rewrite groupby_In. intros (Hin & ->). cbn [snd].
  apply in_map_iff in Hin as (r & Hk & Hr).
  assert (Hf : In r (filter (has_key key K_eq_dec k) rows)).
  { apply filter_In. split; [exact Hr | now apply has_key_true]. }
  destruct (filter _ rows); [destruct Hf | simpl; lia].
Qed.
End Counting.

(** ** reliability.py: the lap counts *)

(** X1: [compute_total_laps] has one row per team of the table: the teams
    it lists are the distinct teams of the table, each once, and the
    TotalLaps of a row is the number of rows of its team in the table, at
    least one.  The rows come in descending order of TotalLaps, and the
    totals add up to the number of rows of the lap table. *)
Theorem total_laps_account_for_every_lap {T : Type} (laps : list (Lap T)) :
  let out := compute_total_laps laps in
  Permutation (map t_Team out) (nodup string_dec (map Team laps)) /\
  Forall (fun t => TotalLaps t = Z.of_nat (List.length (team_rows (t_Team t) laps)))
         out /\
  StronglySorted (fun a b => TotalLaps b <= TotalLaps a) out /\
  NoDup (map t_Team out) /\
  Forall (fun t => 1 <= TotalLaps t) out /\
  total (map TotalLaps out) = Z.of_nat (List.length laps).
Proof.
  intros out.
  split; [apply compute_total_laps_teams|]. split.
  { apply Forall_forall. intros t Ht.
    apply compute_total_laps_In in Ht as (team & _ & ->). reflexivity. }
  assert (Hperm : Permutation out
            (map (fun g => {| t_Team := fst g;
                              TotalLaps := Z.of_nat (List.length (snd g)) |})
                 (groupby (@Team T) string_dec String.leb laps)))
    by apply sort_by_perm.
  split; [apply sort_by_descending|]. split; [|split].
  - apply (Permutation_NoDup (Permutation_sym (Permutation_map t_Team Hperm))).
    rewrite map_map. cbn [t_Team].
    change (map (fun g => fst g) ?l) with (map fst l).
    rewrite groupby_keys. apply group_keys_NoDup.
  - apply (Permutation_Forall (Permutation_sym Hperm)).
    apply Forall_forall. intros t Ht. apply in_map_iff in Ht as (g & <- & Hg).
    apply groupby_group_has_row in Hg. cbn [TotalLaps]. lia.
  - rewrite (total_perm _ _ (Permutation_map TotalLaps Hperm)), map_map.
    cbn [TotalLaps]. apply groupby_sizes_total.
Qed.

Section PivotTotals.
Context {T : Type}.
Implicit Types laps : list (Lap T).

Lemma pivot_cells_count laps :
  cells (compute_laps_per_team_day laps)
  = map (fun team =>
           map (fun day => Z.of_nat (List.length (laps_on team day laps)))
               (day_columns (compute_laps_per_team_day laps)))
        (index (compute_laps_per_team_day laps)).
Proof.
  unfold compute_laps_per_team_day, astype_int, fillna, pivot.
  cbn [cells index day_columns]. rewrite map_map.
  apply map_ext. intros team. rewrite map_map.
  apply map_ext. intros day. apply filled_cell.
Qed.

Lemma pivot_days_cover laps (l : Lap T) :
  In l laps -> In (Day l) (day_columns (compute_laps_per_team_day laps)).
Proof.
  intros Hl. unfold compute_laps_per_team_day, astype_int, fillna, pivot.
  cbn [day_columns]. apply sort_by_In, nodup_In, sizes_days. now apply in_map.
Qed.

Lemma pivot_teams_cover laps (l : Lap T) :
  In l laps -> In (Team l) (index (compute_laps_per_team_day laps)).
Proof.
  intros Hl. unfold compute_laps_per_team_day, astype_int, fillna, pivot.
  cbn [index]. apply sort_by_In, nodup_In, sizes_teams. now apply in_map.
Qed.

Lemma pivot_days_NoDup laps : NoDup (day_columns (compute_laps_per_team_day laps)).
Proof.
  unfold compute_laps_per_team_day, astype_int, fillna, pivot. cbn [day_columns].
  apply sort_by_NoDup, NoDup_nodup.
Qed.

Lemma pivot_teams_NoDup laps : NoDup (index (compute_laps_per_team_day laps)).
Proof.
  unfold compute_laps_per_team_day, astype_int, fillna, pivot. cbn [index].
  apply sort_by_NoDup, NoDup_nodup.
Qed.

Lemma filter_both {A : Type} (f g : A -> bool) (l : list A) :
  filter (fun x => f x && g x) l = filter g (filter f l).
Proof.
  induction l as [|x t IH]; [reflexivity|]. cbn [filter].
  destruct (f x); cbn [andb filter]; [|exact IH].
  destruct (g x); now rewrite IH.
Qed.

(** The laps of a team on a day are the laps of that day among the team's. *)
Lemma laps_on_team_rows laps (team : string) (day : Z) :
  laps_on team day laps = filter (has_key Day Z.eq_dec day) (team_rows team laps).
Proof.
  unfold laps_on, team_rows. rewrite <- filter_both.
  apply filter_ext. intros l. unfold has_key.
  destruct (TeamDay_eq_dec (Team l, Day l) (team, day)) as [E|NE];
    destruct (string_dec (Team l) team) as [Et|NEt];
    destruct (Z.eq_dec (Day l) day) as [Ed|NEd]; simpl; congruence.
Qed.

Lemma pivot_row_total laps (team : string) :
  total (map (fun day => Z.of_nat (List.length (laps_on team day laps)))
             (day_columns (compute_laps_per_team_day laps)))
  = Z.of_nat (List.length (team_rows team laps)).
Proof.
  rewrite (map_ext _ (fun day => Z.of_nat (List.length
                         (filter (has_key Day Z.eq_dec day) (team_rows team laps))))).
  - apply group_sizes_total; [apply pivot_days_NoDup|].
    intros l Hl. apply filter_In in Hl as [Hl _]. now apply pivot_days_cover.
  - intros day. now rewrite laps_on_team_rows.
Qed.

(** X2: in the pivot of [compute_laps_per_team_day] the days stand in
    ascending order; the cells of a team's row add up to the number of laps
    of that team, which is the team's TotalLaps in [compute_total_laps]; and
    all cells together add up to the number of rows of the lap table. *)
Theorem pivot_rows_add_up_to_team_totals laps :
  let p := compute_laps_per_team_day laps in
  StronglySorted Z.le (day_columns p) /\
  map total (cells p)
    = map (fun team => Z.of_nat (List.length (team_rows team laps))) (index p) /\
  (forall t, In t (compute_total_laps laps) ->
             In (t_Team t, TotalLaps t) (combine (index p) (map total (cells p)))) /\
  total (map total (cells p)) = Z.of_nat (List.length laps).
Proof.
  intros p.
  assert (Hrows : map total (cells p)
                  = map (fun team => Z.of_nat (List.length (team_rows team laps)))
                        (index p)).
  { unfold p. rewrite pivot_cells_count, map_map.
    apply map_ext. intros team. apply pivot_row_total. }
  split; [|split; [exact Hrows|split]].
  - unfold p, compute_laps_per_team_day, astype_int, fillna, pivot. cbn [day_columns].
    apply sort_by_Zleb_sorted.
  - intros t Ht. apply compute_total_laps_In in Ht as (team & Hteam & ->).
    cbn [t_Team TotalLaps]. rewrite Hrows.
    assert (Hin : In team (index p)).
    { apply in_map_iff in Hteam as (l & <- & Hl). now apply pivot_teams_cover. }
    clear Hrows. induction (index p) as [|k ks IH]; [destruct Hin|].
    cbn [map combine]. destruct Hin as [->|Hin]; [now left | right; now apply IH].
  - rewrite Hrows. apply group_sizes_total; [apply pivot_teams_NoDup|].
    intros l Hl. now apply pivot_teams_cover.
Qed.

Lemma team_then_most_laps_total (a b : DriverLaps) :
  team_then_most_laps a b = false -> team_then_most_laps b a = true.
Proof.
  unfold team_then_most_laps. rewrite (String.compare_antisym (d_Team b) (d_Team a)).
  destruct (String.compare (d_Team a) (d_Team b)); simpl; try discriminate; auto.
  intros H. apply Z.leb_le. apply Z.leb_gt in H. lia.
Qed.

Lemma team_then_most_laps_trans (a b c : DriverLaps) :
  team_then_most_laps a b = true -> team_then_most_laps b c = true ->
  team_then_most_laps a c = true.
Proof.
  unfold team_then_most_laps.
  destruct (String.compare (d_Team a) (d_Team b)) eqn:Eab; try discriminate;
    destruct (String.compare (d_Team b) (d_Team c)) eqn:Ebc; try discriminate;
    intros Hab Hbc.
  - apply String.compare_eq_iff in Eab, Ebc. rewrite Eab, Ebc.
    rewrite (order_compare_refl _ _ string_order).
    apply Z.leb_le. apply Z.leb_le in Hab, Hbc. lia.
  - apply String.compare_eq_iff in Eab. now rewrite Eab, Ebc.
  - apply String.compare_eq_iff in Ebc. now rewrite <- Ebc, Eab.
  - now rewrite (string_compare_Lt_trans _ _ _ Eab Ebc).
Qed.

Lemma team_then_most_laps_spec (a b : DriverLaps) :
  team_then_most_laps a b = true -> team_then_most_laps_order a b.
Proof.
  unfold team_then_most_laps, team_then_most_laps_order.
  destruct (String.compare (d_Team a) (d_Team b)) eqn:E; try discriminate.
  - intros H. right. split; [now apply String.compare_eq_iff | now apply Z.leb_le].
  - now left.
Qed.

(** X3: [compute_laps_per_driver] has one row per (team, driver) pair with
    laps, holding the number of that pair's laps; the rows are ordered by
    team, and within a team by descending Laps; the Laps add up to the
    number of rows of the lap table. *)
Theorem laps_per_driver_sorted_and_complete laps :
  let out := compute_laps_per_driver laps in
  StronglySorted team_then_most_laps_order out /\
  NoDup (map (fun d => (d_Team d, d_Driver d)) out) /\
  Forall (fun d =>
            Laps d = Z.of_nat (List.length
                       (filter (fun l => String.eqb (Team l) (d_Team d)
                                         && String.eqb (Driver l) (d_Driver d)) laps)) /\
            1 <= Laps d) out /\
  total (map Laps out) = Z.of_nat (List.length laps).
Proof.
  intros out.
  set (groups := groupby (fun l : Lap T => (Team l, Driver l))
                         TeamDriver_eq_dec TeamDriver_leb laps).
  set (row := fun g : (string * string) * list (Lap T) =>
                {| d_Team := fst (fst g); d_Driver := snd (fst g);
                   Laps := Z.of_nat (List.length (snd g)) |}).
  assert (Hperm : Permutation out (map row groups)) by apply sort_by_perm.
  split; [|split; [|split]].
  - apply (StronglySorted_weaken (fun _ => True)
             (fun a b => team_then_most_laps a b = true)).
    + intros a b _ _. apply team_then_most_laps_spec.
    + apply Forall_forall. auto.
    + apply (sort_by_sorted _ (fun _ => True)).
      * intros a b _ _. apply team_then_most_laps_total.
      * intros a b c _ _ _. apply team_then_most_laps_trans.
      * apply Forall_forall. auto.
  - apply (Permutation_NoDup
             (Permutation_sym (Permutation_map (fun d => (d_Team d, d_Driver d)) Hperm))).
    rewrite map_map.
    rewrite (map_ext _ fst) by (now intros [[team driver] g]).
    unfold groups. rewrite groupby_keys. apply group_keys_NoDup.
  - apply (Permutation_Forall (Permutation_sym Hperm)).
    apply Forall_forall. intros d Hd. apply in_map_iff in Hd as ([[team driver] g] & <- & Hg).
    split.
    + apply groupby_In in Hg as [_ ->]. cbn [row Laps d_Team d_Driver fst snd].
      do 2 f_equal. apply filter_ext. intros l. unfold has_key.
      destruct (TeamDriver_eq_dec (Team l, Driver l) (team, driver)) as [E|NE].
      * inversion E. now rewrite !String.eqb_refl.
      * destruct (String.eqb_spec (Team l) team), (String.eqb_spec (Driver l) driver);
          simpl; congruence.
    + apply groupby_group_has_row in Hg. cbn [row Laps snd] in *. lia.
  - rewrite (total_perm _ _ (Permutation_map Laps Hperm)), map_map.
    cbn [row Laps]. apply groupby_sizes_total.
Qed.
End PivotTotals.

(** ** reliability.py: the stint summary *)

Lemma fold_max_bounds (l : list Z) (x : Z) :
  x <= fold_left Z.max l x /\
  (forall y, In y l -> y <= fold_left Z.max l x) /\
  (fold_left Z.max l x = x \/ In (fold_left Z.max l x) l).
Proof.
  revert x. induction l as [|y t IH]; intros x; simpl.
  - split; [lia|]. split; [intros y []| now left].
  - destruct (IH (Z.max x y)) as (Hge & Hall & Hin). split; [lia|]. split.
    + intros z [<-|Hz]; [lia | now apply Hall].
    + destruct Hin as [E|Hin]; [|right; now right].
      rewrite E. destruct (Z.max_spec x y) as [[_ ->]|[_ ->]]; [right; now left | now left].
Qed.

(** The maximum of a column with a row is one of its values and bounds
    them all. *)
Lemma int_max_spec (l : list Z) :
  l <> [] -> In (int_max l) l /\ forall y, In y l -> y <= int_max l.
Proof.
  destruct l as [|x t]; [congruence|]. intros _. unfold int_max.
  destruct (fold_max_bounds t x) as (Hge & Hall & Hin). split.
  - destruct Hin as [->|Hin]; [now left | now right].
  - intros y [<-|Hy]; [exact Hge | now apply Hall].
Qed.

Section StintSummary.
Context {T : Type}.
Implicit Types laps : list (Lap T).

Lemma stint_sizes_In laps (e : StintKey * Z) :
  In e (stint_sizes laps) <->
  In (fst e) (map stint_key laps) /\
  snd e = Z.of_nat (List.length (stint_rows (fst e) laps)).
Proof.
  unfold stint_sizes. rewrite in_map_iff. split.
  - intros ([k g] & <- & Hg). apply groupby_In in Hg as [Hin ->]. now split.
  - intros [Hin Hn]. destruct e as [k n]. cbn [fst snd] in *. subst n.
    exists (k, stint_rows k laps). split; [reflexivity|]. apply groupby_In. now split.
Qed.

Lemma stint_sizes_keys laps :
  map fst (stint_sizes laps) = group_keys stint_key StintKey_eq_dec StintKey_leb laps.
Proof.
  unfold stint_sizes. rewrite map_map. cbn [fst].
  change (map (fun g => fst g) ?l) with (map fst l). apply groupby_keys.
Qed.

Lemma stint_team_of_lap (l : Lap T) (n : Z) : stint_team (stint_key l, n) = Team l.
Proof. reflexivity. Qed.

Lemma compute_stint_summary_In laps (s : StintSummary) :
  In s (compute_stint_summary laps) <->
  exists team,
    In team (map stint_team (stint_sizes laps)) /\
    s = stint_summary_agg
          (team, filter (has_key stint_team string_dec team) (stint_sizes laps)).
Proof.
  unfold compute_stint_summary. rewrite sort_by_In, in_map_iff. split.
  - intros ([team g] & <- & Hg). apply groupby_In in Hg as [Hin ->]. now exists team.
  - intros (team & Hin & ->).
    exists (team, filter (has_key stint_team string_dec team) (stint_sizes laps)).
    split; [reflexivity|]. apply groupby_In. now split.
Qed.

(** The longest stint of a team is one of its stints and bounds the others. *)
Lemma max_stint_length_spec laps (s : StintSummary) :
  In s (compute_stint_summary laps) ->
  (forall l, In l laps -> Team l = ss_Team s ->
             Z.of_nat (List.length (stint_rows (stint_key l) laps)) <= MaxStintLength s) /\
  (exists l, In l laps /\ Team l = ss_Team s /\
             MaxStintLength s = Z.of_nat (List.length (stint_rows (stint_key l) laps))).
Proof.
  intros Hs. apply compute_stint_summary_In in Hs as (team & Hteam & ->).
  cbn [stint_summary_agg ss_Team MaxStintLength fst snd].
  set (group := filter (has_key stint_team string_dec team) (stint_sizes laps)).
  assert (Hne : map snd group <> []).
  { apply in_map_iff in Hteam as (e & He & Hin). intros Hnil.
    assert (Hg : In e group) by (apply filter_In; split; [exact Hin | now apply has_key_true]).
    apply (in_map snd) in Hg. now rewrite Hnil in Hg. }
  destruct (int_max_spec _ Hne) as [Hmem Hbound]. split.
  - intros l Hl Ht. apply Hbound. apply in_map_iff.
    exists (stint_key l, Z.of_nat (List.length (stint_rows (stint_key l) laps))).
    split; [reflexivity|]. apply filter_In. split.
    + apply stint_sizes_In. cbn [fst snd]. split; [now apply in_map | reflexivity].
    + apply has_key_true. now rewrite stint_team_of_lap.
  - apply in_map_iff in Hmem as (e & He & Hin).
    apply filter_In in Hin as [Hin Hk]. apply has_key_true in Hk.
    apply stint_sizes_In in Hin as [Hkey Hsize].
    apply in_map_iff in Hkey as (l & Hl & Hin). exists l. split; [exact Hin|]. split.
    + rewrite <- Hk. destruct e as [k n]. cbn [fst] in Hl. subst k. reflexivity.
    + rewrite <- He, Hsize, Hl. reflexivity.
Qed.

(** The teams that have a stint are the teams of the table. *)
Lemma stint_teams_In laps (team : string) :
  In team (map stint_team (stint_sizes laps)) <-> In team (map Team laps).
Proof.
  rewrite !in_map_iff. split.
  - intros ([k n] & Hteam & He). apply stint_sizes_In in He as [Hk _].
    cbn [fst] in Hk. apply in_map_iff in Hk as (l & <- & Hl).
    exists l. split; [exact Hteam | exact Hl].
  - intros (l & Hteam & Hl).
    exists (stint_key l, Z.of_nat (List.length (stint_rows (stint_key l) laps))).
    split; [exact Hteam|]. apply stint_sizes_In. cbn [fst snd].
    split; [now apply in_map | reflexivity].
Qed.

Lemma compute_stint_summary_teams laps :
  Permutation (map ss_Team (compute_stint_summary laps))
              (nodup string_dec (map Team laps)).
Proof.
  unfold compute_stint_summary.
  rewrite (Permutation_map ss_Team (sort_by_perm _ _)), map_map.
  cbn [stint_summary_agg ss_Team].
  change (map (fun g => fst g) ?l) with (map fst l).
  rewrite groupby_keys, group_keys_perm.
  apply NoDup_Permutation; [apply NoDup_nodup | apply NoDup_nodup |].
  intros team. rewrite !nodup_In. apply stint_teams_In.
Qed.

(** The stints counted for a team are the distinct stint keys of its laps. *)
Lemma team_stint_count laps (team : string) :
  List.length (filter (has_key stint_team string_dec team) (stint_sizes laps))
  = List.length (nodup StintKey_eq_dec (map stint_key (team_rows team laps))).
Proof.
  rewrite <- (length_map fst). apply Permutation_length.
  apply NoDup_Permutation.
  - apply distinct_keys_filter. rewrite stint_sizes_keys. apply group_keys_NoDup.
  - apply NoDup_nodup.
  - intros k. rewrite nodup_In, !in_map_iff. split.
    + intros ([k' n] & Hk & He). cbn [fst] in Hk. subst k'.
      apply filter_In in He as [He Hteam]. apply has_key_true in Hteam.
      apply stint_sizes_In in He as [Hin _]. cbn [fst] in Hin.
      apply in_map_iff in Hin as (l & Hl & Hin). exists l. split; [exact Hl|].
      apply filter_In. split; [exact Hin|]. apply has_key_true.
      rewrite <- Hteam, <- Hl. reflexivity.
    + intros (l & Hl & Hin). apply filter_In in Hin as [Hin Hteam].
      apply has_key_true in Hteam.
      exists (k, Z.of_nat (List.length (stint_rows k laps))). split; [reflexivity|].
      apply filter_In. split.
      * apply stint_sizes_In. cbn [fst snd]. split; [|reflexivity].
        rewrite <- Hl. now apply in_map.
      * apply has_key_true. rewrite <- Hl. exact Hteam.
Qed.

(** X4: [compute_stint_summary] has one row per team of the table: the
    teams it lists are the distinct teams of the table, each once.  The
    TotalStints of a row is the number of distinct stints (Team, Driver,
    Day, Stint) among the laps of its team, at least one; the rows come in
    descending order of TotalStints, which add up to the number of distinct
    stints of the table; and MaxStintLength is the number of laps of one of
    the team's stints and bounds that of each. *)
Theorem stint_summary_counts_and_bounds laps :
  let out := compute_stint_summary laps in
  Permutation (map ss_Team out) (nodup string_dec (map Team laps)) /\
  StronglySorted (fun a b => TotalStints b <= TotalStints a) out /\
  NoDup (map ss_Team out) /\
  total (map TotalStints out)
    = Z.of_nat (List.length (nodup StintKey_eq_dec (map stint_key laps))) /\
  Forall (fun s =>
            TotalStints s
            = Z.of_nat (List.length
                          (nodup StintKey_eq_dec
                             (map stint_key (team_rows (ss_Team s) laps)))) /\
            1 <= TotalStints s /\
            (forall l, In l laps -> Team l = ss_Team s ->
                       Z.of_nat (List.length (stint_rows (stint_key l) laps))
                       <= MaxStintLength s) /\
            (exists l, In l laps /\ Team l = ss_Team s /\
                       MaxStintLength s
                       = Z.of_nat (List.length (stint_rows (stint_key l) laps)))) out.
Proof.
  intros out.
  set (groups := groupby stint_team string_dec String.leb (stint_sizes laps)).
  assert (Hperm : Permutation out (map stint_summary_agg groups)) by apply sort_by_perm.
  split; [apply compute_stint_summary_teams|].
  split; [apply sort_by_descending|]. split; [|split].
  - apply (Permutation_NoDup (Permutation_sym (Permutation_map ss_Team Hperm))).
    rewrite map_map. cbn [stint_summary_agg ss_Team].
    change (map (fun g => fst g) ?l) with (map fst l).
    unfold groups. rewrite groupby_keys. apply group_keys_NoDup.
  - rewrite (total_perm _ _ (Permutation_map TotalStints Hperm)), map_map.
    cbn [stint_summary_agg TotalStints]. unfold groups. rewrite groupby_sizes_total.
    f_equal. rewrite <- (length_map fst), stint_sizes_keys.
    apply Permutation_length, group_keys_perm.
  - apply Forall_forall. intros s Hs. split.
    { apply compute_stint_summary_In in Hs as (team & _ & ->).
      cbn [stint_summary_agg ss_Team TotalStints fst snd].
      now rewrite team_stint_count. }
    split; [|now apply max_stint_length_spec].
    apply (Permutation_in _ Hperm) in Hs. apply in_map_iff in Hs as (g & <- & Hg).
    apply groupby_group_has_row in Hg. cbn [stint_summary_agg TotalStints]. lia.
Qed.
End StintSummary.

(** X5: a long run found by [identify_long_runs] is never longer than the
    MaxStintLength that [compute_stint_summary] reports for its team: the
    summary counts every lap of a stint, the long run only the valid ones. *)
Theorem long_run_within_max_stint_length (c : Z) (min_laps : option Z)
    (laps : list (Lap float)) (r : LongRun) (s : StintSummary) :
  In r (identify_long_runs c laps min_laps) ->
  In s (compute_stint_summary laps) ->
  ss_Team s = s_Team (run r) ->
  StintLaps (run r) <= MaxStintLength s.
Proof.
  intros Hr Hs Hteam.
  destruct (identify_long_runs_spec c laps min_laps) as (_ & Hkeys & Hrows).
  destruct (Hrows r Hr) as (Hn & _).
  assert (Hk : In (run_key r) (map stint_key (valid_laps laps))).
  { apply Hkeys. now apply in_map. }
  apply in_map_iff in Hk as (l & Hl & Hin). apply filter_In in Hin as [Hin _].
  destruct (max_stint_length_spec laps s Hs) as [Hbound _].
  assert (Ht : Team l = ss_Team s).
  { rewrite Hteam. unfold run_key, stint_key in Hl. congruence. }
  specialize (Hbound l Hin Ht). rewrite Hl in Hbound.
  rewrite Hn. etransitivity; [|exact Hbound].
  apply inj_le. unfold stint_rows, valid_laps.
  rewrite <- filter_both.
  rewrite (filter_ext _ (fun x => has_key stint_key StintKey_eq_dec (run_key r) x
                                  && valid_lap x))
    by (intros x; apply andb_comm).
  rewrite filter_both. apply filter_length_le.
Qed.

(** ** long_runs.py: thresholds and extremes *)

Lemma filter_implied {A : Type} (p q : A -> bool) (l : list A) :
  (forall x, q x = true -> p x = true) -> filter q (filter p l) = filter q l.
Proof.
  intros Himp. induction l as [|x t IH]; [reflexivity|]. cbn [filter].
  destruct (p x) eqn:Ep; cbn [filter].
  - destruct (q x); now rewrite IH.
  - destruct (q x) eqn:Eq; [|exact IH]. apply Himp in Eq. congruence.
Qed.

Lemma filter_long_runs_at (c N M : Z) (laps : list (Lap float)) :
  N <> 0 -> M <> 0 -> N <= M ->
  identify_long_runs c laps (Some M)
  = filter (fun r => StintLaps (run r) >=? M) (identify_long_runs c laps (Some N)).
Proof.
  intros HN HM Hle. unfold identify_long_runs, py_or.
  destruct (Z.eqb_spec N 0) as [|_]; [contradiction|].
  destruct (Z.eqb_spec M 0) as [|_]; [contradiction|].
  rewrite (filter_map_swap (fun r => StintLaps (run r) >=? M) add_cov_range).
  cbn [run add_cov_range].
  rewrite (filter_implied (fun s => StintLaps s >=? N) (fun s => StintLaps s >=? M));
    [reflexivity|].
  intros s Hs. apply Z.geb_le in Hs. apply Z.geb_le. lia.
Qed.

(** A group of the valid laps has a lap. *)
Lemma long_run_rows_have_a_lap (c : Z) (min_laps : option Z) (laps : list (Lap float)) :
  Forall (fun r => 1 <= StintLaps (run r)) (identify_long_runs c laps min_laps).
Proof.
  apply Forall_forall. intros r Hr.
  destruct (identify_long_runs_spec c laps min_laps) as (_ & Hkeys & Hrows).
  destruct (Hrows r Hr) as (Hn & _). rewrite Hn.
  assert (Hk : In (run_key r) (map stint_key (valid_laps laps))).
  { apply Hkeys. now apply in_map. }
  apply in_map_iff in Hk as (l & Hl & Hin).
  assert (Hg : In l (stint_rows (run_key r) (valid_laps laps))).
  { apply filter_In. split; [exact Hin | now apply has_key_true]. }
  destruct (stint_rows (run_key r) (valid_laps laps)); [destruct Hg | simpl; lia].
Qed.

(** X6: raising the threshold only removes long runs: for non-zero
    thresholds N <= M the result at M is the result at N without the rows
    whose StintLaps is below M, in the same order. *)
Theorem long_runs_shrink_with_threshold (c N M : Z) (laps : list (Lap float)) :
  N <> 0 -> M <> 0 -> N <= M ->
  identify_long_runs c laps (Some M)
  = filter (fun r => StintLaps (run r) >=? M) (identify_long_runs c laps (Some N)).
Proof. apply filter_long_runs_at. Qed.

(** Threshold 3 keeps the five-lap stint of the scenario that threshold 2
    found. *)
Lemma long_runs_shrink_with_threshold_witness :
  2 <> 0 /\ 3 <> 0 /\ 2 <= 3 /\
  identify_long_runs 8 scenario_laps (Some 3)
  = filter (fun r => StintLaps (run r) >=? 3)
           (identify_long_runs 8 scenario_laps (Some 2)).
Proof.
  assert (H2 : 2 <> 0) by lia. assert (H3 : 3 <> 0) by lia.
  assert (Hle : 2 <= 3) by lia.
  split; [exact H2|]. split; [exact H3|]. split; [exact Hle|].
  exact (long_runs_shrink_with_threshold 8 2 3 scenario_laps H2 H3 Hle).
Defined.

(** X7: every row of [identify_long_runs] has at least one lap, so every
    non-zero threshold up to 1 (the negative ones too) returns the same
    table: all stints that have a valid lap. *)
Theorem long_runs_have_a_lap (c N : Z) (min_laps : option Z) (laps : list (Lap float)) :
  Forall (fun r => 1 <= StintLaps (run r)) (identify_long_runs c laps min_laps) /\
  (N <> 0 -> N <= 1 ->
   identify_long_runs c laps (Some N) = identify_long_runs c laps (Some 1) /\
   map run_key (identify_long_runs c laps (Some N))
   = group_keys stint_key StintKey_eq_dec StintKey_leb (valid_laps laps)).
Proof.
  split; [apply long_run_rows_have_a_lap|]. intros HN Hle.
  assert (Hone : (1 : Z) <> 0) by lia.
  assert (Hall : filter (fun r => StintLaps (run r) >=? 1)
                        (identify_long_runs c laps (Some N))
                 = identify_long_runs c laps (Some N)).
  { apply filter_all. intros r Hr. apply Z.geb_le.
    pose proof (long_run_rows_have_a_lap c (Some N) laps) as Hlap.
    rewrite Forall_forall in Hlap. now apply Hlap. }
  assert (Heq : identify_long_runs c laps (Some N) = identify_long_runs c laps (Some 1)).
  { now rewrite (filter_long_runs_at c N 1 laps HN Hone Hle), Hall. }
  split; [exact Heq|].
  rewrite Heq, identify_long_runs_keys, filter_all, groupby_keys; [reflexivity|].
  intros [k g] Hg. apply Z.geb_le. cbn [py_or Z.eqb].
  destruct k as [[[team driver] day] stint]. cbn [stint_agg StintLaps].
  pose proof (groupby_group_has_row _ _ _ _ _ Hg) as Hrow. cbn [snd] in Hrow.
  apply groupby_In in Hg as [_ ->].
  rewrite count_of_timed; [lia|].
  apply Forall_forall. intros l Hl. apply filter_In in Hl as [Hl _].
  apply filter_In in Hl as [_ Hl]. unfold valid_lap in Hl.
  now apply andb_prop in Hl as [Hl _].
Qed.

(** The single lap is returned at threshold -2 as at threshold 1. *)
Lemma long_runs_have_a_lap_witness :
  -2 <> 0 /\ -2 <= 1 /\
  identify_long_runs 8 single_lap (Some (-2)) = identify_long_runs 8 single_lap (Some 1) /\
  map run_key (identify_long_runs 8 single_lap (Some (-2))) = [("A", "X", 1, 1)%string].
Proof.
  assert (Hnz : -2 <> 0) by lia. assert (Hle : -2 <= 1) by lia.
  split; [exact Hnz|]. split; [exact Hle|].
  destruct (long_runs_have_a_lap 8 (-2) None single_lap) as [_ H].
  destruct (H Hnz Hle) as [Heq Hkeys]. split; [exact Heq|].
  rewrite Hkeys. reflexivity.
Defined.

Lemma f64_ltb_leb (a b : float) : PrimFloat.ltb a b = true -> PrimFloat.leb a b = true.
Proof.
  rewrite FloatAxioms.ltb_spec, FloatAxioms.leb_spec. unfold SFltb, SFleb.
  now destruct (SFcompare (Prim2SF a) (Prim2SF b)) as [[| |]|].
Qed.

Lemma f64_not_ltb_leb (a b : float) :
  PrimFloat.is_nan a = false -> PrimFloat.is_nan b = false ->
  PrimFloat.ltb b a = false -> PrimFloat.leb a b = true.
Proof.
  intros Ha Hb. rewrite FloatAxioms.ltb_spec, FloatAxioms.leb_spec. unfold SFltb, SFleb.
  assert (Ha' : Prim2SF a <> S754_nan) by (intro E; apply is_nan_SF in E; congruence).
  assert (Hb' : Prim2SF b <> S754_nan) by (intro E; apply is_nan_SF in E; congruence).
  destruct (SFcompare_defined _ _ Hb' Ha') as (cmp & Hcmp).
  rewrite Hcmp, (SFcompare_swap _ _ _ Hcmp). now destruct cmp.
Qed.

Lemma f64_leb_refl (a : float) : PrimFloat.is_nan a = false -> PrimFloat.leb a a = true.
Proof.
  intros Ha. destruct (PrimFloat.leb a a) eqn:E; [reflexivity|].
  pose proof (f64_leb_total a a Ha Ha E). congruence.
Qed.

Lemma fmin_spec (a b : float) :
  PrimFloat.is_nan a = false -> PrimFloat.is_nan b = false ->
  (Agg.fmin a b = a \/ Agg.fmin a b = b) /\
  PrimFloat.leb (Agg.fmin a b) a = true /\ PrimFloat.leb (Agg.fmin a b) b = true.
Proof.
  intros Ha Hb. unfold Agg.fmin. destruct (PrimFloat.ltb b a) eqn:E.
  - split; [now right|]. split; [now apply f64_ltb_leb | now apply f64_leb_refl].
  - split; [now left|]. split; [now apply f64_leb_refl | now apply f64_not_ltb_leb].
Qed.

Lemma fmax_spec (a b : float) :
  PrimFloat.is_nan a = false -> PrimFloat.is_nan b = false ->
  (Agg.fmax a b = a \/ Agg.fmax a b = b) /\
  PrimFloat.leb a (Agg.fmax a b) = true /\ PrimFloat.leb b (Agg.fmax a b) = true.
Proof.
  intros Ha Hb. unfold Agg.fmax. destruct (PrimFloat.ltb a b) eqn:E.
  - split; [now right|]. split; [now apply f64_ltb_leb | now apply f64_leb_refl].
  - split; [now left|]. split; [now apply f64_leb_refl | now apply f64_not_ltb_leb].
Qed.

Lemma fold_fmin_spec (l : list float) (x : float) :
  PrimFloat.is_nan x = false -> Forall (fun y => PrimFloat.is_nan y = false) l ->
  In (fold_left Agg.fmin l x) (x :: l) /\
  Forall (fun y => PrimFloat.leb (fold_left Agg.fmin l x) y = true) (x :: l).
Proof.
  intros Hx Hl. revert x Hx. induction Hl as [|y t Hy Ht IH]; intros x Hx; cbn [fold_left].
  - split; [now left|]. constructor; [now apply f64_leb_refl | constructor].
  - destruct (fmin_spec x y Hx Hy) as (Hsel & Hlx & Hly).
    assert (Hm : PrimFloat.is_nan (Agg.fmin x y) = false)
      by (destruct Hsel as [->| ->]; assumption).
    destruct (IH _ Hm) as [Hin Hall]. inversion Hall as [|? ? Hhead Htail]; subst. split.
    + destruct Hin as [E|Hin]; [|right; now right].
      rewrite <- E. destruct Hsel as [->| ->]; [now left | right; now left].
    + constructor; [now apply (f64_leb_trans _ (Agg.fmin x y))|].
      constructor; [now apply (f64_leb_trans _ (Agg.fmin x y)) | exact Htail].
Qed.

Lemma fold_fmax_spec (l : list float) (x : float) :
  PrimFloat.is_nan x = false -> Forall (fun y => PrimFloat.is_nan y = false) l ->
  In (fold_left Agg.fmax l x) (x :: l) /\
  Forall (fun y => PrimFloat.leb y (fold_left Agg.fmax l x) = true) (x :: l).
Proof.
  intros Hx Hl. revert x Hx. induction Hl as [|y t Hy Ht IH]; intros x Hx; cbn [fold_left].
  - split; [now left|]. constructor; [now apply f64_leb_refl | constructor].
  - destruct (fmax_spec x y Hx Hy) as (Hsel & Hlx & Hly).
    assert (Hm : PrimFloat.is_nan (Agg.fmax x y) = false)
      by (destruct Hsel as [->| ->]; assumption).
    destruct (IH _ Hm) as [Hin Hall]. inversion Hall as [|? ? Hhead Htail]; subst. split.
    + destruct Hin as [E|Hin]; [|right; now right].
      rewrite <- E. destruct Hsel as [->| ->]; [now left | right; now left].
    + constructor; [now apply (f64_leb_trans _ (Agg.fmax x y))|].
      constructor; [now apply (f64_leb_trans _ (Agg.fmax x y)) | exact Htail].
Qed.

(** On a column with a value, [min] and [max] are values of the column that
    bound its non-null values. *)
Lemma agg_min_max_spec (l : list float) :
  Agg.dropna l <> [] ->
  In (Agg.min l) (Agg.dropna l) /\ In (Agg.max l) (Agg.dropna l) /\
  Forall (fun y => PrimFloat.leb (Agg.min l) y = true /\
                   PrimFloat.leb y (Agg.max l) = true) (Agg.dropna l).
Proof.
  intros Hne. unfold Agg.min, Agg.max.
  assert (Hnn : Forall (fun y => PrimFloat.is_nan y = false) (Agg.dropna l)).
  { apply Forall_forall. intros y Hy. apply filter_In in Hy as [_ Hy].
    now apply f64_notna_true. }
  destruct (Agg.dropna l) as [|x t]; [congruence|].
  inversion Hnn as [|? ? Hx Ht]; subst.
  destruct (fold_fmin_spec t x Hx Ht) as [Hmin Hlow].
  destruct (fold_fmax_spec t x Hx Ht) as [Hmax Hhigh].
  split; [exact Hmin|]. split; [exact Hmax|].
  rewrite Forall_forall in *. intros y Hy. split; [now apply Hlow | now apply Hhigh].
Qed.

(** X8: in every row of [identify_long_runs], MinTime and MaxTime are lap
    times of valid laps of the stint, hence positive, and every valid lap
    time of the stint lies between them. *)
Theorem min_and_max_bound_the_stint (c : Z) (min_laps : option Z)
    (laps : list (Lap float)) (r : LongRun) :
  In r (identify_long_runs c laps min_laps) ->
  let times := map LapTimeSeconds (stint_rows (run_key r) (valid_laps laps)) in
  In (MinTime (run r)) times /\ In (MaxTime (run r)) times /\
  PrimFloat.ltb 0%float (MinTime (run r)) = true /\
  Forall (fun t => PrimFloat.leb (MinTime (run r)) t = true /\
                   PrimFloat.leb t (MaxTime (run r)) = true) times.
Proof.
  intros Hr times.
  destruct (identify_long_runs_spec c laps min_laps) as (_ & Hkeys & Hrows).
  destruct (Hrows r Hr) as (_ & _ & _ & _ & _ & Hmin & Hmax & _).
  fold times in Hmin, Hmax.
  assert (Htimed : Forall (fun l => f64_notna (LapTimeSeconds l) = true)
                          (stint_rows (run_key r) (valid_laps laps))).
  { apply Forall_forall. intros l Hl. apply filter_In in Hl as [Hl _].
    apply filter_In in Hl as [_ Hl]. unfold valid_lap in Hl.
    now apply andb_prop in Hl as [Hl _]. }
  assert (Hdrop : Agg.dropna times = times) by now apply dropna_of_timed.
  assert (Hne : Agg.dropna times <> []).
  { rewrite Hdrop. unfold times.
    assert (Hk : In (run_key r) (map stint_key (valid_laps laps))).
    { apply Hkeys. now apply in_map. }
    apply in_map_iff in Hk as (l & Hl & Hin). intros Hnil.
    assert (Hg : In l (stint_rows (run_key r) (valid_laps laps))).
    { apply filter_In. split; [exact Hin | now apply has_key_true]. }
    apply (in_map LapTimeSeconds) in Hg. now rewrite Hnil in Hg. }
  destruct (agg_min_max_spec times Hne) as (Hin_min & Hin_max & Hbound).
  rewrite Hdrop in Hin_min, Hin_max, Hbound. rewrite Hmin, Hmax.
  split; [exact Hin_min|]. split; [exact Hin_max|]. split; [|exact Hbound].
  apply in_map_iff in Hin_min as (l & <- & Hl). apply filter_In in Hl as [Hl _].
  apply filter_In in Hl as [_ Hl]. unfold valid_lap in Hl.
  now apply andb_prop in Hl as [_ Hl].
Qed.

(** The scenario: the fastest lap took 89 s and the slowest 92 s. *)
Lemma min_and_max_bound_the_stint_witness :
  exists r, In r (identify_long_runs 8 scenario_laps (Some 5)) /\
    MinTime (run r) = 89%float /\ MaxTime (run r) = 92%float /\
    Forall (fun t => PrimFloat.leb (MinTime (run r)) t = true /\
                     PrimFloat.leb t (MaxTime (run r)) = true)
           (map LapTimeSeconds (stint_rows (run_key r) (valid_laps scenario_laps))).
Proof.
  assert (Hr : exists r, In r (identify_long_runs 8 scenario_laps (Some 5)) /\
                         MinTime (run r) = 89%float /\ MaxTime (run r) = 92%float).
  { eexists. split; [left; reflexivity|]. split; reflexivity. }
  destruct Hr as (r & Hr & Hmin & Hmax). exists r.
  split; [exact Hr|]. split; [exact Hmin|]. split; [exact Hmax|].
  exact (proj2 (proj2 (proj2
           (min_and_max_bound_the_stint 8 (Some 5) scenario_laps r Hr)))).
Defined.

(** ** long_runs.py: the order of the long runs and their traces *)

Lemma sort_by_ext {A : Type} (le le' : A -> A -> bool) (l : list A) :
  (forall a b, le a b = le' a b) -> sort_by le l = sort_by le' l.
Proof.
  intros Hext. induction l as [|x t IH]; [reflexivity|]. cbn [sort_by fold_right].
  fold (sort_by le t). fold (sort_by le' t). rewrite IH.
  generalize (sort_by le' t). intros s. induction s as [|y s IHs]; [reflexivity|].
  cbn [insert]. rewrite Hext. destruct (le' x y); [reflexivity | now rewrite IHs].
Qed.

Lemma sorted_keys_filter {Row Key : Type} (key : Row -> Key) (keep : Row -> bool)
    (Rel : Key -> Key -> Prop) (table : list Row) :
  StronglySorted Rel (map key table) ->
  StronglySorted Rel (map key (filter keep table)).
Proof.
  induction table as [|row rest IH]; cbn [map filter]; intros Hs; [constructor|].
  inversion Hs as [|? ? Hrest Hhead]; subst.
  destruct (keep row); cbn [map]; [|now apply IH].
  constructor; [now apply IH|].
  rewrite Forall_forall in *. intros k Hk. apply Hhead.
  apply in_map_iff in Hk as (other & <- & Hin). apply filter_In in Hin as [Hin _].
  now apply in_map.
Qed.

Lemma StintKey_order : order_compare StintKey_compare.
Proof.
  exact (pair_order _ _
           (pair_order _ _ (pair_order _ _ string_order string_order) Z_order)
           Z_order).
Qed.

Lemma StintKey_leb_compare (a b : StintKey) :
  StintKey_leb a b = not_gt (StintKey_compare a b).
Proof.
  destruct a as [[[t1 d1] y1] s1], b as [[[t2 d2] y2] s2].
  unfold StintKey_leb, StintKey_compare. cbn [fst snd].
  now destruct (String.compare t1 t2), (String.compare d1 d2).
Qed.

Lemma not_gt_precedes (a b : StintKey) :
  not_gt (StintKey_compare a b) = true -> StintKey_precedes a b.
Proof.
  unfold StintKey_precedes. destruct (StintKey_compare a b) eqn:E; try discriminate.
  - right. now apply (cmp_Eq _ StintKey_order).
  - now left.
Qed.

Lemma stint_group_keys_sorted {R : Type} (key : R -> StintKey) (rows : list R) :
  StronglySorted StintKey_precedes (group_keys key StintKey_eq_dec StintKey_leb rows).
Proof.
  unfold group_keys.
  rewrite (sort_by_ext _ (fun a b => not_gt (StintKey_compare a b)))
    by apply StintKey_leb_compare.
  apply (StronglySorted_weaken (fun _ => True)
           (fun a b => not_gt (StintKey_compare a b) = true)).
  - intros a b _ _. apply not_gt_precedes.
  - apply Forall_forall. auto.
  - apply sort_by_order_sorted, StintKey_order.
Qed.

Lemma long_runs_in_key_order_aux (c : Z) (min_laps : option Z) (laps : list (Lap float)) :
  StronglySorted StintKey_precedes (map run_key (identify_long_runs c laps min_laps)).
Proof.
  rewrite identify_long_runs_keys. apply sorted_keys_filter.
  rewrite groupby_keys. apply stint_group_keys_sorted.
Qed.

(** X9: the rows of [identify_long_runs] come in ascending order of
    (Team, Driver, Day, Stint), compared in that order of the columns, and
    no two rows have the same key. *)
Theorem long_runs_in_key_order (c : Z) (min_laps : option Z) (laps : list (Lap float)) :
  StronglySorted StintKey_precedes (map run_key (identify_long_runs c laps min_laps)) /\
  NoDup (map run_key (identify_long_runs c laps min_laps)).
Proof.
  split; [apply long_runs_in_key_order_aux|].
  apply (identify_long_runs_spec c laps min_laps).
Qed.

Section TraceOfLongRuns.
Context {T : Type} `{Arith T}.

Lemma stint_mask_split (r : LongRun) (l : Lap T) :
  stint_mask r l = valid_lap l && has_key stint_key StintKey_eq_dec (run_key r) l.
Proof.
  unfold stint_mask, valid_lap, has_key, stint_key, run_key.
  destruct (StintKey_eq_dec _ _) as [E|NE].
  - inversion E as [[E1 E2 E3 E4]]. rewrite !String.eqb_refl, !Z.eqb_refl.
    cbn [andb]. now rewrite andb_true_r.
  - rewrite andb_false_r.
    destruct (String.eqb_spec (Team l) (s_Team (run r))); [|reflexivity].
    destruct (String.eqb_spec (Driver l) (s_Driver (run r))); [|reflexivity].
    destruct (Z.eqb_spec (Day l) (s_Day (run r))); [|reflexivity].
    destruct (Z.eqb_spec (Stint l) (s_Stint (run r))); [|reflexivity].
    congruence.
Qed.

(** The mask of [get_long_run_laps] selects the valid laps of the stint. *)
Lemma stint_mask_rows (laps : list (Lap T)) (r : LongRun) :
  filter (stint_mask r) laps = stint_rows (run_key r) (valid_laps laps).
Proof.
  unfold stint_rows, valid_laps. rewrite <- filter_both.
  apply filter_ext, stint_mask_split.
Qed.

Lemma stint_trace_rows (laps : list (Lap T)) (r : LongRun) :
  List.length (stint_trace laps r)
  = List.length (stint_rows (run_key r) (valid_laps laps)).
Proof.
  rewrite stint_trace_length. unfold ordered_stint_laps.
  rewrite (Permutation_length (sort_by_perm _ _)). now rewrite stint_mask_rows.
Qed.

(** Every row of the result is a valid lap of the table. *)
Lemma trace_rows_valid (laps : list (Lap T)) (long_runs : list LongRun) :
  Forall (fun t => In (lap t) laps /\ valid_lap (lap t) = true)
         (rows (get_long_run_laps laps long_runs)).
Proof.
  rewrite get_long_run_laps_rows. apply Forall_forall. intros t Ht.
  apply in_concat in Ht as (block & Hblock & Ht).
  apply in_map_iff in Hblock as (r & <- & _).
  apply (in_map lap) in Ht. rewrite stint_trace_laps in Ht.
  apply sort_by_In in Ht. rewrite stint_mask_rows in Ht.
  apply filter_In in Ht as [Ht _]. now apply filter_In in Ht.
Qed.
End TraceOfLongRuns.

Lemma length_concat_total {A : Type} (ls : list (list A)) :
  Z.of_nat (List.length (List.concat ls))
  = total (map (fun l => Z.of_nat (List.length l)) ls).
Proof.
  induction ls as [|l t IH]; [reflexivity|].
  cbn [List.concat map total fold_right]. rewrite length_app. fold (total (map (fun l0 => Z.of_nat (List.length l0)) t)).
  rewrite <- IH. lia.
Qed.

(** X10: the traces that [get_long_run_laps] selects for the long runs of
    [identify_long_runs] on the same table have StintLaps rows per stint,
    StintLaps added up over the long runs in all; every row is a lap of the
    table with a valid time; and the frame is empty exactly when there is no
    long run. *)
Theorem traces_match_the_long_runs (c : Z) (min_laps : option Z)
    (laps : list (Lap float)) :
  let long_runs := identify_long_runs c laps min_laps in
  let out := get_long_run_laps laps long_runs in
  Forall (fun r => Z.of_nat (List.length (stint_group (run_key r) out))
                   = StintLaps (run r)) long_runs /\
  Z.of_nat (List.length (rows out)) = total (map (fun r => StintLaps (run r)) long_runs) /\
  Forall (fun t => In (lap t) laps /\ valid_lap (lap t) = true) (rows out) /\
  (df_empty out = true <-> long_runs = []).
Proof.
  intros long_runs out.
  destruct (identify_long_runs_spec c laps min_laps) as (Hnd & _ & Hrows).
  fold long_runs in Hnd, Hrows.
  assert (Hlen : forall r, In r long_runs ->
                   Z.of_nat (List.length (stint_trace laps r)) = StintLaps (run r)).
  { intros r Hr. destruct (Hrows r Hr) as (Hn & _). now rewrite Hn, stint_trace_rows. }
  split; [|split; [|split]].
  - apply Forall_forall. intros r Hr. unfold out.
    rewrite (stint_group_trace _ _ _ Hnd Hr). now apply Hlen.
  - unfold out. rewrite get_long_run_laps_rows, length_concat_total, map_map.
    f_equal. apply map_ext_in. intros r Hr. now apply Hlen.
  - apply trace_rows_valid.
  - split; [|intros E; unfold out; now rewrite E].
    unfold out. destruct long_runs as [|r rest] eqn:Eruns; [reflexivity|].
    intros Hempty. exfalso.
    assert (Hr : In r (r :: rest)) by now left.
    specialize (Hlen r Hr).
    pose proof (long_run_rows_have_a_lap c min_laps laps) as Hlap.
    fold long_runs in Hlap. rewrite Eruns in Hlap.
    inversion Hlap as [|? ? H1 _]; subst.
    unfold get_long_run_laps, df_empty in Hempty. cbn [map columns rows List.concat] in Hempty.
    destruct (stint_trace laps r) as [|t ts]; [cbn in Hlen; lia|].
    cbn in Hempty. discriminate Hempty.
Qed.

(** ** long_runs.py: the renderers do not raise *)

Section FrameColumns.
Context {T : Type} `{Arith T}.

(** A frame of [get_long_run_laps] that is not empty has the columns of the
    lap table and the two added ones. *)
Lemma nonempty_frame_columns (laps : list (Lap T)) (long_runs : list LongRun) :
  df_empty (get_long_run_laps laps long_runs) = false ->
  columns (get_long_run_laps laps long_runs) = trace_columns.
Proof.
  unfold get_long_run_laps. destruct long_runs as [|r rest]; [discriminate | reflexivity].
Qed.
End FrameColumns.

Lemma df_groupby_stints {R K : Type} (df : DataFrame R) (key : R -> K)
    (K_eq_dec : forall a b : K, {a = b} + {a <> b}) (K_leb : K -> K -> bool) :
  columns df = trace_columns ->
  df_groupby df ["Team"; "Driver"; "Day"; "Stint"]%string key K_eq_dec K_leb
  = Returns (groupby key K_eq_dec K_leb (rows df)).
Proof. intros Hcols. unfold df_groupby. rewrite Hcols. reflexivity. Qed.

Lemma column_of_trace {R X : Type} (df : DataFrame R) (label : string) (field : R -> X) :
  columns df = trace_columns -> In label trace_columns ->
  column df label field = Returns (map field (rows df)).
Proof.
  intros Hcols Hin. unfold column. rewrite Hcols.
  replace (existsb (String.eqb label) trace_columns) with true; [reflexivity|].
  symmetry. apply existsb_exists. exists label. split; [exact Hin | apply String.eqb_refl].
Qed.

Lemma somes_nil_iff {A : Type} (l : list (option A)) :
  Agg.somes l = [] <-> forall o, In o l -> o = None.
Proof.
  split; [|apply somes_all_null].
  induction l as [|o t IH]; intros Hnil o' Ho'; [destruct Ho'|].
  destruct o as [a|]; [discriminate Hnil|].
  destruct Ho' as [<-|Ho']; [reflexivity | now apply IH].
Qed.

Lemma unique_nil_iff {A : Type} (A_eq_dec : forall a b : A, {a = b} + {a <> b})
    (l : list A) :
  unique A_eq_dec l = [] <-> l = [].
Proof. destruct l; simpl; split; congruence. Qed.

Lemma sort_by_nil_iff {A : Type} (le : A -> A -> bool) (l : list A) :
  sort_by le l = [] <-> l = [].
Proof.
  split; [|now intros ->]. intros Hnil.
  pose proof (sort_by_perm le l) as Hperm. rewrite Hnil in Hperm.
  now apply Permutation_nil in Hperm.
Qed.

Section RenderersReturn.
Variable LONG_RUN_MIN_LAPS : Z.
Variable build_color_maps :
  list (Lap float) -> (string -> option string) * (string -> option string).
Variable get_compound_color : string -> string.
Variable TEAM_COLORS : string -> option string.
Variable FALLBACK_COLOR : string.

Lemma traces_returns (laps : list (Lap float)) (long_runs : list LongRun) :
  exists fig,
    plot_long_run_traces LONG_RUN_MIN_LAPS build_color_maps laps long_runs = Returns fig /\
    (fig = None <-> df_empty (get_long_run_laps laps long_runs) = true).
Proof.
  unfold plot_long_run_traces.
  destruct (build_color_maps laps) as [team_colors driver_colors].
  destruct (df_empty (get_long_run_laps laps long_runs)) eqn:Hempty.
  - exists None. now split.
  - pose proof (nonempty_frame_columns _ _ Hempty) as Hcols.
    rewrite (df_groupby_stints _ _ _ _ Hcols). cbn [bind].
    rewrite (column_of_trace _ "Team" _ Hcols) by (cbn; tauto). cbn [bind].
    eexists. split; [reflexivity|]. split; discriminate.
Qed.

Lemma by_compound_returns (laps : list (Lap float)) (long_runs : list LongRun) :
  exists fig,
    plot_long_runs_by_compound LONG_RUN_MIN_LAPS build_color_maps get_compound_color laps long_runs
    = Returns fig /\
    (fig = None <->
     df_empty (get_long_run_laps laps long_runs) = true \/
     forall t, In t (rows (get_long_run_laps laps long_runs)) -> Compound (lap t) = None).
Proof.
  unfold plot_long_runs_by_compound.
  destruct (build_color_maps laps) as [team_colors driver_colors].
  destruct (df_empty (get_long_run_laps laps long_runs)) eqn:Hempty.
  - exists None. split; [reflexivity|]. split; auto.
  - pose proof (nonempty_frame_columns _ _ Hempty) as Hcols.
    rewrite (column_of_trace _ "Compound" _ Hcols) by (cbn; tauto). cbn [bind].
    set (col := map (fun t => Compound (lap t)) (rows (get_long_run_laps laps long_runs))).
    assert (Hnull : Agg.somes col = [] <->
              forall t, In t (rows (get_long_run_laps laps long_runs)) ->
                        Compound (lap t) = None).
    { rewrite somes_nil_iff. unfold col. split.
      - intros Hall t Ht. apply Hall. now apply (in_map (fun t => Compound (lap t))).
      - intros Hall o Ho. apply in_map_iff in Ho as (t & <- & Ht). now apply Hall. }
    destruct (sort_by String.leb (unique string_dec (Agg.somes col))) as [|cmp rest] eqn:Ecs.
    + exists None. split; [reflexivity|]. split; [|reflexivity]. intros _. right.
      apply Hnull. apply sort_by_nil_iff in Ecs. now apply unique_nil_iff in Ecs.
    + replace (Z.of_nat (List.length (cmp :: rest)) =? 0) with false
        by (symmetry; apply Z.eqb_neq; cbn [List.length]; lia).
      rewrite (df_groupby_stints _ _ _ _ Hcols). cbn [bind].
      eexists. split; [reflexivity|]. split; [discriminate|].
      intros [Habs|Hall]; [discriminate Habs|].
      apply Hnull in Hall. rewrite Hall in Ecs. discriminate Ecs.
Qed.

Lemma consistency_returns (long_runs : list LongRun) :
  exists fig,
    plot_consistency_rankings TEAM_COLORS FALLBACK_COLOR long_runs = Returns fig /\
    (fig = None <-> long_runs = []).
Proof.
  unfold plot_consistency_rankings.
  destruct (compute_consistency_by_team long_runs) as [|row rest] eqn:Econs.
  - exists None. split; [reflexivity|]. split; [|reflexivity].
    intros _. now apply consistency_empty_iff.
  - eexists. split; [reflexivity|]. split; [discriminate|].
    intros ->. discriminate Econs.
Qed.

(** X11: none of the three renderers of long_runs.py raises, whatever the
    lap table and the long-run table: the column-less frame of an empty
    long-run table is caught by the emptiness test before a column is read.
    [plot_long_run_traces] returns None exactly when no lap is selected,
    [plot_long_runs_by_compound] exactly when no lap is selected or no
    selected lap has a Compound, [plot_consistency_rankings] exactly when
    the long-run table has no row. *)
Theorem long_run_renderers_never_raise (laps : list (Lap float))
    (long_runs : list LongRun) :
  (exists fig,
     plot_long_run_traces LONG_RUN_MIN_LAPS build_color_maps laps long_runs = Returns fig /\
     (fig = None <-> df_empty (get_long_run_laps laps long_runs) = true)) /\
  (exists fig,
     plot_long_runs_by_compound LONG_RUN_MIN_LAPS build_color_maps get_compound_color laps long_runs
     = Returns fig /\
     (fig = None <->
      df_empty (get_long_run_laps laps long_runs) = true \/
      forall t, In t (rows (get_long_run_laps laps long_runs)) ->
                Compound (lap t) = None)) /\
  (exists fig,
     plot_consistency_rankings TEAM_COLORS FALLBACK_COLOR long_runs = Returns fig /\
     (fig = None <-> long_runs = [])).
Proof.
  split; [apply traces_returns|]. split; [apply by_compound_returns|].
  apply consistency_returns.
Qed.

(** The frame of the long runs of a table is empty exactly when there is
    none. *)
Lemma long_run_frame_empty_iff (c : Z) (min_laps : option Z) (laps : list (Lap float)) :
  df_empty (get_long_run_laps laps (identify_long_runs c laps min_laps)) = true <->
  identify_long_runs c laps min_laps = [].
Proof.
  split; [|intros E; now rewrite E].
  destruct (identify_long_runs c laps min_laps) as [|r rest] eqn:Eruns; [reflexivity|].
  intros Hempty. exfalso.
  pose proof (long_run_rows_have_a_lap c min_laps laps) as Hlap. rewrite Eruns in Hlap.
  inversion Hlap as [|? ? H1 _]; subst.
  destruct (identify_long_runs_spec c laps min_laps) as (_ & _ & Hrows).
  rewrite Eruns in Hrows. destruct (Hrows r (or_introl eq_refl)) as (Hn & _).
  rewrite <- (stint_trace_rows laps r) in Hn.
  unfold get_long_run_laps, df_empty in Hempty.
  cbn [map columns rows List.concat] in Hempty.
  destruct (stint_trace laps r) as [|t ts]; [cbn in Hn; lia|].
  cbn in Hempty. discriminate Hempty.
Qed.

(** X12: [generate_all] of long_runs.py never raises and returns the three
    chart names in a fixed order; the trace chart and the consistency chart
    are absent exactly when no stint of the table reaches the configured
    threshold, and then the chart by compound is absent too. *)
Theorem generate_all_long_runs (laps : list (Lap float)) :
  exists traces rankings by_compound,
    LongRuns.generate_all LONG_RUN_MIN_LAPS build_color_maps get_compound_color
      TEAM_COLORS FALLBACK_COLOR laps
    = Returns [("long_run_traces", traces); ("consistency_rankings", rankings);
               ("long_runs_by_compound", by_compound)]%string /\
    (traces = None <-> identify_long_runs LONG_RUN_MIN_LAPS laps None = []) /\
    (rankings = None <-> identify_long_runs LONG_RUN_MIN_LAPS laps None = []) /\
    (identify_long_runs LONG_RUN_MIN_LAPS laps None = [] -> by_compound = None).
Proof.
  unfold LongRuns.generate_all.
  set (long_runs := identify_long_runs LONG_RUN_MIN_LAPS laps None).
  destruct (traces_returns laps long_runs) as (f1 & E1 & H1).
  destruct (by_compound_returns laps long_runs) as (f3 & E3 & H3).
  destruct (consistency_returns long_runs) as (f2 & E2 & H2).
  exists f1, f2, f3. rewrite E1, E2, E3. cbn [bind].
  split; [reflexivity|]. split; [|split; [exact H2|]].
  - rewrite H1. apply long_run_frame_empty_iff.
  - intros Hnone. apply H3. left. now apply long_run_frame_empty_iff.
Qed.
End RenderersReturn.

(** ** distributions.py: the panels and the team order *)

Lemma unique_NoDup {A : Type} (A_eq_dec : forall a b : A, {a = b} + {a <> b})
    (l : list A) : NoDup (unique A_eq_dec l).
Proof.
  induction l as [|x t IH]; cbn [unique]; constructor.
  - intros Hin. apply filter_In in Hin as [_ Hx].
    destruct (A_eq_dec x x); [discriminate | contradiction].
  - now apply NoDup_filter.
Qed.

Lemma somes_In {A : Type} (a : A) (l : list (option A)) :
  In a (Agg.somes l) <-> In (Some a) l.
Proof.
  induction l as [|o t IH]; cbn [Agg.somes]; [tauto|].
  destruct o as [b|]; cbn [In]; rewrite IH; split.
  - intros [->|H]; auto.
  - intros [E|H]; [inversion E; auto | auto].
  - auto.
  - intros [E|H]; [discriminate | exact H].
Qed.

Section CompoundPanels.
Variable build_color_maps :
  list (Lap float) -> (string -> option string) * (string -> option string).
Variable get_compound_color : string -> string.

(** X13: [plot_compound_distributions] never raises and returns None
    exactly when no lap has a Compound.  Otherwise it draws one panel per
    charted compound, 5 units of height each: when one of SOFT, MEDIUM, HARD
    occurs in the table the charted compounds are those of the three that
    occur, and any other compound gets no panel; when none of the three
    occurs, every compound of the table is charted. *)
Theorem compound_distribution_panels (laps : list (Lap float)) :
  exists fig,
    plot_compound_distributions build_color_maps get_compound_color laps = Returns fig /\
    (fig = None <-> forall l, In l laps -> Compound l = None) /\
    (forall f, fig = Some f ->
       fig_height f = 5 * Z.of_nat (List.length (fig_axes f)) /\
       exists compounds,
         map ax_title (fig_axes f) = map (fun c => (c ++ " Compound")%string) compounds /\
         NoDup compounds /\
         ((exists c, In c standard_compounds /\ In (Some c) (map Compound laps)) ->
          forall c, In c compounds <->
                    In c standard_compounds /\ In (Some c) (map Compound laps)) /\
         ((forall c, In c standard_compounds -> ~ In (Some c) (map Compound laps)) ->
          forall c, In c compounds <-> In (Some c) (map Compound laps))).
Proof.
  unfold plot_compound_distributions.
  destruct (build_color_maps laps) as [team_colors driver_colors].
  set (present := fun c : string =>
         if in_dec option_string_eq_dec (Some c)
              (unique option_string_eq_dec (map Compound laps))
         then true else false).
  assert (Hpresent : forall c, present c = true <-> In (Some c) (map Compound laps)).
  { intros c. unfold present. destruct (in_dec _ _ _) as [Hin|Hnot].
    - apply unique_In in Hin. tauto.
    - split; [discriminate|]. intros Hin. exfalso. apply Hnot. now apply unique_In. }
  set (standard := filter present ["SOFT"; "MEDIUM"; "HARD"]%string).
  assert (Hstandard : forall c, In c standard <->
                        In c standard_compounds /\ In (Some c) (map Compound laps)).
  { intros c. unfold standard. rewrite filter_In, Hpresent. reflexivity. }
  assert (Hnd_std : NoDup standard).
  { apply NoDup_filter. repeat constructor; cbn; intuition discriminate. }
  assert (Hnull : (forall l, In l laps -> Compound l = None) <->
                  Agg.somes (map Compound laps) = []).
  { rewrite somes_nil_iff. split.
    - intros H o Ho. apply in_map_iff in Ho as (l & <- & Hl). now apply H.
    - intros H l Hl. apply H. now apply in_map. }
  set (compounds := match standard with
                    | [] => unique string_dec (Agg.somes (map Compound laps))
                    | _ => standard
                    end).
  assert (Hcases : (standard = [] /\
                    compounds = unique string_dec (Agg.somes (map Compound laps))) \/
                   (standard <> [] /\ compounds = standard)).
  { unfold compounds. destruct standard; [left | right]; split; congruence. }
  destruct compounds as [|cmp rest] eqn:Ecs.
  - exists None. split; [reflexivity|]. split; [|discriminate].
    split; [|reflexivity]. intros _. apply Hnull.
    destruct Hcases as [[_ E]|[Hne E]]; [|congruence].
    symmetry in E. now apply unique_nil_iff in E.
  - replace (Z.of_nat (List.length (cmp :: rest)) =? 0) with false
      by (symmetry; apply Z.eqb_neq; cbn [List.length]; lia).
    eexists. split; [reflexivity|]. split.
    + split; [discriminate|]. intros Hall. exfalso. apply Hnull in Hall.
      destruct Hcases as [[_ E]|[Hne E]].
      * rewrite Hall in E. discriminate E.
      * destruct standard as [|c0 s0] eqn:Es; [congruence|].
        assert (Hc0 : In c0 (c0 :: s0)) by now left.
        apply Hstandard in Hc0 as [_ Hc0]. apply somes_In in Hc0.
        now rewrite Hall in Hc0.
    + intros f Hf. inversion Hf; subst f; clear Hf. cbn [fig_height fig_axes].
      split; [cbn [map List.length]; now rewrite length_map|].
      exists (cmp :: rest). split; [cbn [map]; rewrite map_map; reflexivity|].
      destruct Hcases as [[Hstd E]|[Hne E]]; rewrite E.
      * split; [apply unique_NoDup|]. split.
        -- intros (c & Hc & Hin). exfalso.
           assert (Hs : In c standard) by (apply Hstandard; now split).
           now rewrite Hstd in Hs.
        -- intros _ c. now rewrite unique_In, somes_In.
      * split; [exact Hnd_std|]. split.
        -- intros _. exact Hstandard.
        -- intros Hnone c. exfalso. destruct standard as [|c0 s0] eqn:Es; [congruence|].
           assert (Hc0 : In c0 (c0 :: s0)) by now left.
           apply Hstandard in Hc0 as [Hstd Hc0]. exact (Hnone c0 Hstd Hc0).
Qed.
End CompoundPanels.

Lemma insert_map {A B : Type} (h : A -> B) (le : B -> B -> bool) (x : A) (l : list A) :
  insert le (h x) (map h l) = map h (insert (fun a b => le (h a) (h b)) x l).
Proof.
  induction l as [|y t IH]; [reflexivity|]. cbn [map insert].
  destruct (le (h x) (h y)); [reflexivity|]. cbn [map]. now rewrite IH.
Qed.

Lemma sort_by_map {A B : Type} (h : A -> B) (le : B -> B -> bool) (l : list A) :
  sort_by le (map h l) = map h (sort_by (fun a b => le (h a) (h b)) l).
Proof.
  induction l as [|x t IH]; [reflexivity|]. cbn [map sort_by fold_right].
  fold (sort_by le (map h t)). fold (sort_by (fun a b => le (h a) (h b)) t).
  now rewrite IH, insert_map.
Qed.

(** Sorting the images of rows is sorting the rows by the image's column. *)
Lemma sort_values_f64_map {A B : Type} (h : A -> B) (col : B -> float) (l : list A) :
  sort_values_f64 col (map h l) = map h (sort_values_f64 (fun a => col (h a)) l).
Proof.
  unfold sort_values_f64. rewrite !filter_map_swap, sort_by_map, map_app. reflexivity.
Qed.

Lemma sort_values_f64_ext {A : Type} (col col' : A -> float) (l : list A) :
  (forall a, col a = col' a) -> sort_values_f64 col l = sort_values_f64 col' l.
Proof.
  intros Hext. unfold sort_values_f64.
  rewrite (filter_ext (fun r => f64_notna (col r)) (fun r => f64_notna (col' r)))
    by (intros a; now rewrite Hext).
  rewrite (filter_ext (fun r => PrimFloat.is_nan (col r))
                      (fun r => PrimFloat.is_nan (col' r)))
    by (intros a; now rewrite Hext).
  f_equal. apply sort_by_ext. intros a b. now rewrite !Hext.
Qed.

(** X14: the team order of the violin chart, [teams_by_median], is the
    order of the rows of [compute_team_stats]. *)
Theorem violin_order_is_team_stats_order (laps : list (Lap float)) :
  teams_by_median laps = map (fun s => a_Team (agg s)) (compute_team_stats laps).
Proof.
  unfold teams_by_median, compute_team_stats.
  rewrite (map_map team_agg add_headline_gap), !sort_values_f64_map, !map_map.
  rewrite (sort_values_f64_ext
             (fun a => a_median (agg (add_headline_gap (team_agg a))))
             (fun a => snd (fst a, Agg.median (map LapTimeSeconds (snd a)))))
    by (now intros [team g]).
  apply map_ext. now intros [team g].
Qed.

Lemma combine_seq_In {A : Type} (l : list A) (start i : nat) (x : A) :
  In (i, x) (combine (seq start (List.length l)) l) <->
  (start <= i)%nat /\ nth_error l (i - start) = Some x.
Proof.
  revert start. induction l as [|y t IH]; intros start; cbn [List.length seq combine In].
  - split; [tauto|]. intros [_ Hnth]. now destruct (i - start)%nat.
  - rewrite IH. split.
    + intros [E|[Hle Hnth]].
      * inversion E; subst. split; [lia|]. now rewrite Nat.sub_diag.
      * split; [lia|]. replace (i - start)%nat with (S (i - S start)) by lia. exact Hnth.
    + intros [Hle Hnth]. destruct (Nat.eq_dec i start) as [->|Hne].
      * left. rewrite Nat.sub_diag in Hnth. cbn in Hnth. congruence.
      * right. split; [lia|].
        replace (i - start)%nat with (S (i - S start)) in Hnth by lia. exact Hnth.
Qed.

Lemma teams_by_median_perm (laps : list (Lap float)) :
  Permutation (teams_by_median laps) (nodup string_dec (map Team laps)).
Proof.
  unfold teams_by_median.
  rewrite (Permutation_map fst (sort_values_f64_perm _ _)), map_map. cbn [fst].
  change (map (fun g => fst g) ?l) with (map fst l).
  rewrite groupby_keys. apply group_keys_perm.
Qed.

(** The violins drawn over a list of tick labels: one at the position of
    each team that has a lap time, none for the others. *)
Lemma team_violins_spec (team_colors : string -> option string)
    (laps : list (Lap float)) (teams_ordered : list string) :
  let timed team :=
    Agg.dropna (map LapTimeSeconds (filter (fun l => String.eqb (Team l) team) laps)) in
  forall v,
    In v (team_violins team_colors laps teams_ordered) <->
    exists team,
      nth_error teams_ordered (violin_position v) = Some team /\
      timed team <> [] /\
      v = {| violin_position := violin_position v;
             violin_data := timed team;
             violin_color := dict_get team_colors team "#888888" |}.
Proof.
  intros timed v. unfold team_violins. rewrite in_flat_map. split.
  - intros ([i team] & Hpair & Hv). apply combine_seq_In in Hpair as [_ Hnth].
    rewrite Nat.sub_0_r in Hnth. fold (timed team) in Hv.
    destruct (timed team) as [|x t] eqn:Edata; [destruct Hv|].
    destruct Hv as [<-|[]]. cbn [violin_position]. exists team.
    rewrite Edata. repeat split; [exact Hnth | discriminate].
  - intros (team & Hnth & Hdata & Hv). exists (violin_position v, team). split.
    + apply combine_seq_In. rewrite Nat.sub_0_r. split; [lia | exact Hnth].
    + fold (timed team). destruct (timed team) as [|x t]; [congruence|].
      left. now rewrite Hv.
Qed.

(** The violin loop draws at most one violin per position. *)
Lemma team_violins_positions (team_colors : string -> option string)
    (laps : list (Lap float)) (teams_ordered : list string) :
  NoDup (map violin_position (team_violins team_colors laps teams_ordered)).
Proof.
  unfold team_violins. generalize 0%nat as start.
  induction teams_ordered as [|team rest IH]; intros start;
    cbn [List.length seq combine flat_map map]; [constructor|].
  assert (Hlater : forall v,
             In v (flat_map
                     (fun it : nat * string =>
                        let '(i, team0) := it in
                        match Agg.dropna
                                (map LapTimeSeconds
                                   (filter (fun l => String.eqb (Team l) team0) laps)) with
                        | [] => []
                        | _ :: _ =>
                            [ {| violin_position := i;
                                 violin_data :=
                                   Agg.dropna
                                     (map LapTimeSeconds
                                        (filter (fun l => String.eqb (Team l) team0) laps));
                                 violin_color := dict_get team_colors team0 "#888888" |} ]
                        end)
                     (combine (seq (S start) (List.length rest)) rest)) ->
             (S start <= violin_position v)%nat).
  { intros v Hv. apply in_flat_map in Hv as ([i team0] & Hpair & Hv).
    apply combine_seq_In in Hpair as [Hle _].
    destruct (Agg.dropna _); [destruct Hv|]. destruct Hv as [<-|[]]. exact Hle. }
  destruct (Agg.dropna (map LapTimeSeconds
                          (filter (fun l => String.eqb (Team l) team) laps)));
    cbn [app map violin_position]; [apply IH|].
  constructor; [|apply IH].
  intros Hin. apply in_map_iff in Hin as (v & Hpos & Hv). apply Hlater in Hv. lia.
Qed.

Section Violins.
Variable build_color_maps :
  list (Lap float) -> (string -> option string) * (string -> option string).

(** X15: the figure of [plot_team_violins] has one axis whose tick labels
    are the distinct teams of the table.  Each violin stands at a position
    of its own, and its data are the non-null lap times of the team whose
    label is at that position, in table order, in that team's colour; these
    data are never empty.  A violin is drawn at a team's position exactly
    when the team has a lap with a non-null lap time, so a team without one
    keeps its label and an empty slot. *)
Theorem violins_skip_untimed_teams (laps : list (Lap float)) :
  let lap_times team :=
    Agg.dropna (map LapTimeSeconds
                  (filter (fun l => String.eqb (Team l) team) laps)) in
  exists f ax,
    plot_team_violins build_color_maps laps = Returns (Some f) /\
    fig_axes f = [ax] /\
    Permutation (ax_ticklabels ax) (nodup string_dec (map Team laps)) /\
    NoDup (map violin_position (ax_violins ax)) /\
    Forall (fun v =>
              exists team,
                nth_error (ax_ticklabels ax) (violin_position v) = Some team /\
                violin_data v = lap_times team /\
                violin_color v
                = dict_get (fst (build_color_maps laps)) team "#888888")
           (ax_violins ax) /\
    Forall (fun v => violin_data v <> [] /\
                     Forall (fun x => PrimFloat.is_nan x = false) (violin_data v))
           (ax_violins ax) /\
    (forall i team,
       nth_error (ax_ticklabels ax) i = Some team ->
       (exists v, In v (ax_violins ax) /\ violin_position v = i) <->
       (exists l, In l laps /\ Team l = team /\ f64_notna (LapTimeSeconds l) = true)).
Proof.
  intros lap_times. unfold plot_team_violins.
  destruct (build_color_maps laps) as [team_colors driver_colors].
  eexists. eexists. split; [reflexivity|]. split; [reflexivity|].
  cbn [ax_ticklabels ax_violins fst].
  assert (Htimed : forall team,
            lap_times team <> [] <->
            exists l, In l laps /\ Team l = team /\ f64_notna (LapTimeSeconds l) = true).
  { intros team. unfold lap_times. split.
    - intros Hne.
      destruct (Agg.dropna _) as [|x t] eqn:Edata; [congruence|].
      assert (Hx : In x (Agg.dropna (map LapTimeSeconds
                           (filter (fun l => String.eqb (Team l) team) laps))))
        by (rewrite Edata; now left).
      apply filter_In in Hx as [Hx Hnn]. apply in_map_iff in Hx as (l & <- & Hl).
      apply filter_In in Hl as [Hl Ht]. apply String.eqb_eq in Ht. now exists l.
    - intros (l & Hl & Ht & Hnn) Hnil.
      assert (Hx : In (LapTimeSeconds l)
                      (Agg.dropna (map LapTimeSeconds
                         (filter (fun l => String.eqb (Team l) team) laps)))).
      { apply filter_In. split; [|exact Hnn]. apply in_map. apply filter_In.
        split; [exact Hl | now apply String.eqb_eq]. }
      now rewrite Hnil in Hx. }
  split; [apply teams_by_median_perm|].
  split; [apply team_violins_positions|]. split; [|split].
  - apply Forall_forall. intros v Hv.
    apply team_violins_spec in Hv as (team & Hnth & _ & Hv). exists team.
    split; [exact Hnth|]. rewrite Hv. split; reflexivity.
  - apply Forall_forall. intros v Hv.
    apply team_violins_spec in Hv as (team & _ & Hne & Hv). rewrite Hv.
    cbn [violin_data]. split; [exact Hne|].
    apply Forall_forall. intros x Hx. apply filter_In in Hx as [_ Hx].
    now apply f64_notna_true.
  - intros i team Hnth. rewrite <- Htimed. split.
    + intros (v & Hv & <-). apply team_violins_spec in Hv as (team' & Hnth' & Hne & _).
      assert (E : team' = team) by congruence. now rewrite <- E.
    + intros Hne.
      exists {| violin_position := i;
                violin_data := lap_times team;
                violin_color := dict_get team_colors team "#888888" |}.
      split; [|reflexivity]. apply team_violins_spec. exists team.
      cbn [violin_position]. now repeat split.
Qed.
End Violins.

(** ** long_runs.py: the consistency table *)

Lemma compute_consistency_In (long_runs : list LongRun) (row : Consistency) :
  In row (compute_consistency_by_team long_runs) <->
  exists team,
    In team (map (fun r => s_Team (run r)) long_runs) /\
    row = consistency_agg
            (team, filter (has_key (fun r => s_Team (run r)) string_dec team) long_runs).
Proof.
  unfold compute_consistency_by_team. rewrite sort_values_f64_In, in_map_iff. split.
  - intros ([team g] & <- & Hg). apply groupby_In in Hg as [Hin ->]. now exists team.
  - intros (team & Hin & ->).
    exists (team, filter (has_key (fun r => s_Team (run r)) string_dec team) long_runs).
    split; [reflexivity|]. apply groupby_In. now split.
Qed.

Lemma filter_swap {A : Type} (f g : A -> bool) (l : list A) :
  filter f (filter g l) = filter g (filter f l).
Proof.
  rewrite <- !filter_both. apply filter_ext. intros x. apply andb_comm.
Qed.

(** X16: [compute_consistency_by_team] has one row per team that has a long
    run.  NumLongRuns counts the team's long runs whose CoV is defined, not
    all of them: a team whose long runs all have CoV = NaN is listed with
    NumLongRuns = 0 and an undefined MedianCoV.  Over the teams NumLongRuns
    adds up to the number of long runs with a defined CoV. *)
Theorem consistency_counts_defined_cov (long_runs : list LongRun) :
  let out := compute_consistency_by_team long_runs in
  let defined := filter (fun r => f64_notna (CoV r)) long_runs in
  Permutation (map c_Team out)
              (nodup string_dec (map (fun r => s_Team (run r)) long_runs)) /\
  NoDup (map c_Team out) /\
  Forall (fun row =>
            NumLongRuns row
            = Z.of_nat (List.length
                (filter (has_key (fun r => s_Team (run r)) string_dec (c_Team row)) defined)) /\
            (NumLongRuns row = 0 -> PrimFloat.is_nan (MedianCoV row) = true)) out /\
  total (map NumLongRuns out) = Z.of_nat (List.length defined).
Proof.
  intros out defined.
  set (team_of := fun r : LongRun => s_Team (run r)).
  set (groups := groupby team_of string_dec String.leb long_runs).
  assert (Hperm : Permutation out (map consistency_agg groups))
    by apply sort_values_f64_perm.
  assert (Hteams : map c_Team (map consistency_agg groups)
                   = group_keys team_of string_dec String.leb long_runs).
  { rewrite map_map. unfold groups. rewrite <- groupby_keys.
    apply map_ext. now intros [team g]. }
  assert (Hcount : forall team,
            NumLongRuns (consistency_agg (team, filter (has_key team_of string_dec team) long_runs))
            = Z.of_nat (List.length (filter (has_key team_of string_dec team) defined))).
  { intros team. cbn [consistency_agg NumLongRuns]. unfold Agg.count, Agg.dropna.
    cbn [t_notna Arith_f64]. rewrite filter_map_swap, length_map.
    unfold defined. now rewrite filter_swap. }
  split; [|split; [|split]].
  - rewrite (Permutation_map c_Team Hperm), Hteams. apply group_keys_perm.
  - apply (Permutation_NoDup (Permutation_sym (Permutation_map c_Team Hperm))).
    rewrite Hteams. apply group_keys_NoDup.
  - apply Forall_forall. intros row Hrow.
    apply compute_consistency_In in Hrow as (team & _ & ->). split.
    + apply Hcount.
    + cbn [consistency_agg NumLongRuns MedianCoV]. unfold Agg.count, Agg.median.
      intros Hn. destruct (Agg.dropna (map CoV _)); [reflexivity | discriminate Hn].
  - rewrite (total_perm _ _ (Permutation_map NumLongRuns Hperm)), map_map.
    unfold groups, groupby. rewrite map_map.
    rewrite (map_ext _ (fun team => Z.of_nat (List.length
                          (filter (has_key team_of string_dec team) defined))))
      by (intros team; apply Hcount).
    apply group_sizes_total; [apply group_keys_NoDup|].
    intros r Hr. apply group_keys_In. apply in_map. now apply filter_In in Hr.
Qed.

(** ** reliability.py: the heat map *)

Lemma combine_fst_snd {X Y : Type} (l : list (X * Y)) :
  combine (map fst l) (map snd l) = l.
Proof.
  induction l as [|[x y] t IH]; [reflexivity|]. cbn [map combine fst snd]. now rewrite IH.
Qed.

Lemma combine_map_In {X Y : Type} (F : X -> Y) (l : list X) (x : X) (y : Y) :
  In (x, y) (combine l (map F l)) -> In x l /\ y = F x.
Proof.
  induction l as [|a t IH]; cbn [map combine In]; [tauto|].
  intros [E|Hin]; [inversion E; auto|]. destruct (IH Hin). auto.
Qed.

Lemma cell_values (peak : Z) (row : list Z) :
  map cell_value (map (heat_cell peak) row) = row.
Proof. rewrite map_map. cbn [heat_cell cell_value]. apply map_id. Qed.

Section Heatmap.
Context {T : Type}.
Implicit Types laps : list (Lap T).

(** X17: the heat map of [plot_laps_heatmap] shows the rows of the pivot of
    [compute_laps_per_team_day], each under its team, reordered so that the
    row totals ascend; the total of a row is the number of laps of its team;
    the days keep the order of the pivot's columns. *)
Theorem heatmap_rows_ascend_by_total laps :
  let hm := plot_laps_heatmap laps in
  let p := compute_laps_per_team_day laps in
  let shown := combine (hm_yticklabels hm) (map (map cell_value) (hm_cells hm)) in
  Permutation shown (combine (index p) (cells p)) /\
  StronglySorted Z.le (map (fun tr => total (snd tr)) shown) /\
  Forall (fun tr => total (snd tr) = Z.of_nat (List.length (team_rows (fst tr) laps)))
         shown /\
  hm_xticklabels hm = day_columns p.
Proof.
  intros hm p shown.
  set (with_total := map (fun tr : string * list Z => (tr, row_total (snd tr)))
                         (combine (index p) (cells p))).
  set (sorted := sort_by (fun a b : (string * list Z) * Z => snd a <=? snd b) with_total).
  assert (Hshown : shown = map fst sorted).
  { unfold shown, hm, plot_laps_heatmap. cbn [hm_yticklabels hm_cells].
    fold p. fold with_total. fold sorted.
    rewrite (map_map _ (map cell_value)).
    rewrite (map_ext (fun tr => map cell_value (map (heat_cell _) (snd tr))) snd)
      by (intros tr; apply cell_values).
    apply combine_fst_snd. }
  assert (Hperm : Permutation sorted with_total) by apply sort_by_perm.
  assert (Hinv : Forall (fun e : (string * list Z) * Z => snd e = total (snd (fst e)))
                        sorted).
  { apply (Permutation_Forall (Permutation_sym Hperm)).
    apply Forall_forall. intros e He. apply in_map_iff in He as (tr & <- & _).
    reflexivity. }
  assert (Hpermshown : Permutation shown (combine (index p) (cells p))).
  { rewrite Hshown, (Permutation_map fst Hperm). unfold with_total.
    rewrite map_map. cbn [fst]. now rewrite map_id. }
  split; [exact Hpermshown|]. split; [|split; [|reflexivity]].
  - rewrite Hshown, map_map.
    rewrite (map_ext_in (fun e => total (snd (fst e))) snd).
    + apply StronglySorted_map.
      apply (StronglySorted_weaken (fun _ => True)
               (fun a b : (string * list Z) * Z => (snd a <=? snd b) = true)).
      * intros a b _ _. apply Z.leb_le.
      * apply Forall_forall. auto.
      * apply (sort_by_sorted _ (fun _ => True)).
        -- intros a b _ _ Hab. apply Z.leb_le. apply Z.leb_gt in Hab. lia.
        -- intros a b c _ _ _ Hab Hbc. apply Z.leb_le. apply Z.leb_le in Hab, Hbc. lia.
        -- apply Forall_forall. auto.
    + intros e He. rewrite Forall_forall in Hinv. symmetry. now apply Hinv.
  - apply (Permutation_Forall (Permutation_sym Hpermshown)).
    apply Forall_forall. intros [team row] Hin. cbn [fst snd].
    unfold p in Hin. rewrite pivot_cells_count in Hin.
    apply combine_map_In in Hin as [_ ->]. apply pivot_row_total.
Qed.
End Heatmap.

(** ** long_runs.py: what the trace chart draws *)

(** Two duplicate-free lists sorted by an antisymmetric relation that have
    the same elements are the same list. *)
Lemma sorted_same_elements {A : Type} (Rel : A -> A -> Prop) (l1 l2 : list A) :
  (forall a b, Rel a b -> Rel b a -> a = b) ->
  StronglySorted Rel l1 -> StronglySorted Rel l2 -> NoDup l1 -> NoDup l2 ->
  (forall x, In x l1 <-> In x l2) -> l1 = l2.
Proof.
  intros Hanti Hs1. revert l2.
  induction Hs1 as [|x t Ht IH Hx]; intros l2 Hs2 Hnd1 Hnd2 Hsame.
  - destruct l2 as [|y u]; [reflexivity|]. exfalso. apply (Hsame y). now left.
  - destruct l2 as [|y u]; [exfalso; apply (Hsame x); now left|].
    inversion Hs2 as [|? ? Hu Hy]; subst.
    apply NoDup_cons_iff in Hnd1 as [Hx_fresh Hnd_t].
    apply NoDup_cons_iff in Hnd2 as [Hy_fresh Hnd_u].
    rewrite Forall_forall in Hx, Hy.
    assert (Exy : x = y).
    { destruct (proj1 (Hsame x) (or_introl eq_refl)) as [E|Hxu]; [now symmetry|].
      destruct (proj2 (Hsame y) (or_introl eq_refl)) as [E|Hyt]; [exact E|].
      apply Hanti; [now apply Hx | now apply Hy]. }
    subst y. f_equal. apply IH; auto. intros z. split; intros Hz.
    + destruct (proj1 (Hsame z) (or_intror Hz)) as [E|Hzu]; [congruence | exact Hzu].
    + destruct (proj2 (Hsame z) (or_intror Hz)) as [E|Hzt]; [congruence | exact Hzt].
Qed.

Lemma StintKey_precedes_antisym (a b : StintKey) :
  StintKey_precedes a b -> StintKey_precedes b a -> a = b.
Proof.
  intros [Hab|E] [Hba|E']; auto.
  rewrite (cmp_swap _ StintKey_order a b), Hba in Hab. discriminate Hab.
Qed.

(** The stint groups of the traces of a table's long runs are the traces of
    the long runs, one group per long run and in the order of the long
    runs. *)
Lemma trace_groups_are_the_long_runs (c : Z) (min_laps : option Z)
    (laps : list (Lap float)) :
  let long_runs := identify_long_runs c laps min_laps in
  groupby trace_key StintKey_eq_dec StintKey_leb
          (rows (get_long_run_laps laps long_runs))
  = map (fun r => (run_key r, stint_trace laps r)) long_runs.
Proof.
  intros long_runs.
  destruct (identify_long_runs_spec c laps min_laps) as (Hnd & _ & Hrows).
  fold long_runs in Hnd, Hrows.
  set (frame := get_long_run_laps laps long_runs).
  assert (Hkeys : group_keys trace_key StintKey_eq_dec StintKey_leb (rows frame)
                  = map run_key long_runs).
  { apply (sorted_same_elements StintKey_precedes).
    - apply StintKey_precedes_antisym.
    - apply stint_group_keys_sorted.
    - apply long_runs_in_key_order_aux.
    - apply group_keys_NoDup.
    - exact Hnd.
    - intros k. rewrite group_keys_In. unfold frame. rewrite get_long_run_laps_rows.
      rewrite !in_map_iff. split.
      + intros (t & <- & Ht). apply in_concat in Ht as (block & Hblock & Ht).
        apply in_map_iff in Hblock as (r & <- & Hr). exists r. split; [|exact Hr].
        symmetry. now apply (stint_trace_key laps).
      + intros (r & <- & Hr).
        pose proof (long_run_rows_have_a_lap c min_laps laps) as Hlap.
        rewrite Forall_forall in Hlap. specialize (Hlap r Hr).
        destruct (Hrows r Hr) as (Hn & _).
        rewrite <- (stint_trace_rows laps r) in Hn.
        destruct (stint_trace laps r) as [|t ts] eqn:Etrace; [cbn in Hn; lia|].
        exists t. assert (Ht : In t (stint_trace laps r)) by (rewrite Etrace; now left).
        split; [now apply (stint_trace_key laps)|].
        apply in_concat. exists (stint_trace laps r). split; [now apply in_map | exact Ht]. }
  unfold groupby. rewrite Hkeys, map_map. apply map_ext_in. intros r Hr. f_equal.
  exact (stint_group_trace laps long_runs r Hnd Hr).
Qed.

Section TraceChart.
Variable LONG_RUN_MIN_LAPS : Z.
Variable build_color_maps :
  list (Lap float) -> (string -> option string) * (string -> option string).

(** X18: on the long runs of the table itself, [plot_long_run_traces]
    returns None when there is none and otherwise one axis, titled with the
    configured threshold, whose lines are one solid line per long run, in
    the order of the long-run table, followed by the dashed rule of
    [ax.axhline] at height 0 in #333333: one line more than there are long
    runs.  The line of a long run plots the DeltaFromMean of its laps
    against 1, 2, ..., StintLaps, in the driver's colour (else the team's,
    else grey); the legend names each team with a long run once. *)
Theorem one_trace_per_long_run (c : Z) (min_laps : option Z) (laps : list (Lap float)) :
  let long_runs := identify_long_runs c laps min_laps in
  let team_colors := fst (build_color_maps laps) in
  let driver_colors := snd (build_color_maps laps) in
  exists fig,
    plot_long_run_traces LONG_RUN_MIN_LAPS build_color_maps laps long_runs = Returns fig /\
    match fig with
    | None => long_runs = []
    | Some f =>
        long_runs <> [] /\
        exists ax,
          fig_axes f = [ax] /\
          ax_title ax
          = ("Long Run Lap Time Traces (stints ≥ "
             ++ py_str_int LONG_RUN_MIN_LAPS ++ " laps)")%string /\
          ax_xlabel ax = "Lap Within Stint"%string /\
          ax_ylabel ax = "Delta from Stint Mean (seconds)"%string /\
          List.length (ax_lines ax) = S (List.length long_runs) /\
          ax_lines ax
          = map (fun r =>
                   {| line_x := map Z.of_nat (seq 1 (Z.to_nat (StintLaps (run r))));
                      line_y := map DeltaFromMean (stint_trace laps r);
                      line_color :=
                        dict_get driver_colors (s_Driver (run r))
                          (dict_get team_colors (s_Team (run r)) "#888888");
                      line_linestyle := "-" |})
                long_runs
            ++ [ {| line_x := [0; 1];
                    line_y := [0%float; 0%float];
                    line_color := "#333333";
                    line_linestyle := "--" |} ] /\
          NoDup (map fst (ax_legend ax)) /\
          (forall team, In team (map fst (ax_legend ax)) <->
                        In team (map (fun r => s_Team (run r)) long_runs))
    end.
Proof.
  intros long_runs team_colors driver_colors.
  destruct (identify_long_runs_spec c laps min_laps) as (Hnd & _ & Hrows).
  fold long_runs in Hnd, Hrows.
  pose proof (long_run_frame_empty_iff c min_laps laps) as Hempty.
  pose proof (trace_groups_are_the_long_runs c min_laps laps) as Hgroups.
  cbv zeta in Hgroups. fold long_runs in Hempty, Hgroups.
  unfold plot_long_run_traces, team_colors, driver_colors.
  destruct (build_color_maps laps) as [tc dc]. cbn [fst snd].
  destruct (df_empty (get_long_run_laps laps long_runs)) eqn:E.
  - exists None. split; [reflexivity | now apply Hempty].
  - pose proof (nonempty_frame_columns _ _ E) as Hcols.
    rewrite (df_groupby_stints _ _ _ _ Hcols). cbn [bind].
    rewrite (column_of_trace _ "Team" _ Hcols) by (cbn; tauto). cbn [bind].
    eexists. split; [reflexivity|]. cbn [fig_axes].
    split; [intros Hnil; apply Hempty in Hnil; congruence|].
    eexists. split; [reflexivity|].
    cbn [ax_lines ax_legend ax_title ax_xlabel ax_ylabel].
    split; [reflexivity|]. split; [reflexivity|]. split; [reflexivity|].
    split; [rewrite Hgroups, length_app, !length_map; cbn [List.length]; lia|].
    split; [|split].
    + unfold zero_line. f_equal.
      rewrite Hgroups, map_map. apply map_ext_in. intros r Hr.
      destruct (Hrows r Hr) as (Hn & _).
      rewrite <- (stint_trace_rows laps r) in Hn.
      unfold run_key. cbn [trace_line]. f_equal.
      rewrite stint_trace_numbers, Hn. now rewrite Nat2Z.id.
    + rewrite map_map. cbn [fst]. rewrite map_id.
      apply sort_by_NoDup, unique_NoDup.
    + intros team. rewrite map_map. cbn [fst]. rewrite map_id.
      rewrite sort_by_In, unique_In, get_long_run_laps_rows, !in_map_iff. split.
      * intros (t & <- & Ht). apply in_concat in Ht as (block & Hblock & Ht).
        apply in_map_iff in Hblock as (r & <- & Hr). exists r. split; [|exact Hr].
        apply (stint_trace_key laps) in Ht. unfold stint_key, run_key in Ht. congruence.
      * intros (r & <- & Hr).
        pose proof (long_run_rows_have_a_lap c min_laps laps) as Hlap.
        rewrite Forall_forall in Hlap. specialize (Hlap r Hr).
        destruct (Hrows r Hr) as (Hn & _).
        rewrite <- (stint_trace_rows laps r) in Hn.
        destruct (stint_trace laps r) as [|t ts] eqn:Etrace; [cbn in Hn; lia|].
        assert (Ht : In t (stint_trace laps r)) by (rewrite Etrace; now left).
        exists t. split.
        -- apply (stint_trace_key laps) in Ht. unfold stint_key, run_key in Ht. congruence.
        -- apply in_concat. exists (stint_trace laps r).
           split; [now apply in_map | exact Ht].
Qed.
End TraceChart.

(** ** distributions.py: the fastest lap of a team *)

(** X19: in a row of [compute_team_stats] that counts a lap, [min] is one of
    the team's non-null lap times and no non-null lap time of the team is
    below it; it need not be positive. *)
Theorem team_min_is_the_fastest_lap (laps : list (Lap float)) (s : TeamStats) :
  In s (compute_team_stats laps) -> 1 <= a_count (agg s) ->
  let times :=
    Agg.dropna (map LapTimeSeconds (team_rows (a_Team (agg s)) laps)) in
  In (a_min (agg s)) times /\
  Forall (fun t => PrimFloat.leb (a_min (agg s)) t = true) times.
Proof.
  intros Hs Hcount times. apply compute_team_stats_In in Hs as (team & _ & ->).
  cbn [agg add_headline_gap team_agg a_min a_count a_Team] in *. unfold times.
  assert (Hne : Agg.dropna (map LapTimeSeconds (team_rows team laps)) <> []).
  { unfold Agg.count in Hcount. intros Hnil. rewrite Hnil in Hcount. cbn in Hcount. lia. }
  destruct (agg_min_max_spec _ Hne) as (Hin & _ & Hbound).
  split; [exact Hin|]. rewrite Forall_forall in *. intros t Ht. now apply Hbound.
Qed.

(** Team A of [untimed_laps]: its fastest lap is the lap timed 0. *)
Lemma team_min_is_the_fastest_lap_witness :
  exists s, In s (compute_team_stats untimed_laps) /\ 1 <= a_count (agg s) /\
            a_Team (agg s) = "A"%string /\ a_min (agg s) = 0%float /\
            Forall (fun t => PrimFloat.leb (a_min (agg s)) t = true)
                   (Agg.dropna (map LapTimeSeconds (team_rows (a_Team (agg s)) untimed_laps))).
Proof.
  assert (Hs : exists s, In s (compute_team_stats untimed_laps) /\
                         1 <= a_count (agg s) /\
                         a_Team (agg s) = "A"%string /\ a_min (agg s) = 0%float).
  { eexists. split; [left; reflexivity|]. split; [vm_compute; discriminate|].
    split; reflexivity. }
  destruct Hs as (s & Hin & Hcount & Hteam & Hmin). exists s.
  split; [exact Hin|]. split; [exact Hcount|]. split; [exact Hteam|]. split; [exact Hmin|].
  exact (proj2 (team_min_is_the_fastest_lap untimed_laps s Hin Hcount)).
Defined.

(** The scenario: the one long run is within the longest stint of team A. *)
Lemma long_run_within_max_stint_length_witness :
  exists r s,
    In r (identify_long_runs 8 scenario_laps (Some 5)) /\
    In s (compute_stint_summary scenario_laps) /\
    ss_Team s = s_Team (run r) /\
    StintLaps (run r) <= MaxStintLength s.
Proof.
  assert (Hr : exists r, In r (identify_long_runs 8 scenario_laps (Some 5)))
    by (eexists; left; reflexivity).
  assert (Hs : exists s, In s (compute_stint_summary scenario_laps) /\
                         ss_Team s = "A"%string)
    by (eexists; split; [left; reflexivity | reflexivity]).
  destruct Hr as (r & Hr). destruct Hs as (s & Hs & Hteam). exists r, s.
  assert (Ht : ss_Team s = s_Team (run r)).
  { rewrite Hteam. destruct Hr as [<- | []]. reflexivity. }
  split; [exact Hr|]. split; [exact Hs|]. split; [exact Ht|].
  exact (long_run_within_max_stint_length 8 (Some 5) scenario_laps r s Hr Hs Ht).
Defined.

(** ** long_runs.py: traces see the valid laps only *)

(** X20: [get_long_run_laps] reads only the laps with a non-null, positive
    lap time: dropping the other rows from the lap table beforehand does not
    change its result, whatever the long-run table. *)
Theorem long_run_laps_ignore_invalid_laps {T : Type} `{Arith T}
    (laps : list (Lap T)) (long_runs : list LongRun) :
  get_long_run_laps (valid_laps laps) long_runs = get_long_run_laps laps long_runs.
Proof.
  assert (E : map (stint_trace (valid_laps laps)) long_runs
              = map (stint_trace laps) long_runs).
  { apply map_ext. intros r. unfold stint_trace, valid_laps.
    rewrite (filter_implied valid_lap (stint_mask r)); [reflexivity|].
    intros l Hl. rewrite stint_mask_split in Hl. now apply andb_prop in Hl as [Hl _]. }
  unfold get_long_run_laps. now rewrite E.
Qed.
